(** * namecard: a shallow embedding of the card typesetting code

    The development follows [src/App.tsx] (the React component that lays
    out the cards) and [server/index.js] (the preset and font store).

    - JavaScript strings are sequences of UTF-16 code units, here [list Z].
    - JavaScript and CSS numbers are modelled by exact rationals [Q]; a
      value that is not a number is kept apart as [NaN].
    - A style object is a record of typed CSS values: a template literal
      such as [`-${v}em`] is the constructor [MinusEm v], so that the
      number spliced into the template stays visible. *)

From stdpp Require Import base numbers list strings gmap.
From Stdlib Require Import QArith Qround Lqa.

Local Open Scope Z_scope.

(** ** JavaScript built-ins used by the code *)

Module JS.

(** A string is its sequence of UTF-16 code units. *)
Abbreviation jsstring := (list Z).

(** The code units of an ASCII literal. *)
Fixpoint lit (s : string) : jsstring :=
  match s with
  | EmptyString => []
  | String a s' => Z.of_nat (Ascii.nat_of_ascii a) :: lit s'
  end.

Definition in_range (lo hi c : Z) : bool := (lo <=? c) && (c <=? hi).

(** ECMAScript [WhiteSpace]: TAB, VT, FF, ZWNBSP and the space
    separators of Unicode. *)
Definition is_white_space (c : Z) : bool :=
  (c =? 0x0009) || (c =? 0x000B) || (c =? 0x000C) || (c =? 0xFEFF)
  || (c =? 0x0020) || (c =? 0x00A0) || (c =? 0x1680)
  || in_range 0x2000 0x200A c
  || (c =? 0x202F) || (c =? 0x205F) || (c =? 0x3000).

(** ECMAScript [LineTerminator]: LF, CR, LS, PS. *)
Definition is_line_terminator (c : Z) : bool :=
  (c =? 0x000A) || (c =? 0x000D) || (c =? 0x2028) || (c =? 0x2029).

(** What [String.prototype.trim] and [parseInt] strip. *)
Definition is_str_white_space (c : Z) : bool :=
  is_white_space c || is_line_terminator c.

Fixpoint trimStart (s : jsstring) : jsstring :=
  match s with
  | [] => []
  | c :: s' => if is_str_white_space c then trimStart s' else s
  end.

Definition trimEnd (s : jsstring) : jsstring :=
  rev (trimStart (rev s)).

(** [s.trim()] *)
Definition trim (s : jsstring) : jsstring := trimEnd (trimStart s).

(** *** Regular expressions

    Only the constructs the two files use: the assertions [^] and [$]
    (without the [m] flag), character classes made of ranges and
    single characters, possibly negated, and the bounded quantifier
    [{n}] on a class. *)

Record char_class := CharClass {
  negated : bool;
  ranges : list (Z * Z)
}.

Definition class_matches (k : char_class) (c : Z) : bool :=
  xorb (negated k) (existsb (fun r => in_range (fst r) (snd r) c) (ranges k)).

Inductive term :=
| AssertBegin                                (* ^ *)
| AssertEnd                                  (* $ *)
| Repeat (k : char_class) (n : nat).         (* [...]{n} *)

Definition pattern := list term.

(** [n] consecutive code units of the class; gives back the rest. *)
Fixpoint match_repeat (k : char_class) (n : nat) (rest : jsstring)
  : option jsstring :=
  match n with
  | O => Some rest
  | S n' =>
      match rest with
      | [] => None
      | c :: r => if class_matches k c then match_repeat k n' r else None
      end
  end.

(** Does the pattern match at index [pos], where [rest] is the input
    from [pos] on? *)
Fixpoint match_terms (p : pattern) (pos : nat) (rest : jsstring) : bool :=
  match p with
  | [] => true
  | AssertBegin :: p' => Nat.eqb pos 0 && match_terms p' pos rest
  | AssertEnd :: p' =>
      match rest with
      | [] => match_terms p' pos rest
      | _ :: _ => false
      end
  | Repeat k n :: p' =>
      match match_repeat k n rest with
      | Some r => match_terms p' (pos + n)%nat r
      | None => false
      end
  end.

(** [re.test(s)]: a match is tried at every index, from left to right. *)
Definition test (p : pattern) (s : jsstring) : bool :=
  existsb (fun i => match_terms p i (drop i s)) (seq 0 (S (length s))).

(** [s.replace(/[...]/g, r)] for a pattern that is one character class. *)
Definition replace_class (k : char_class) (r : jsstring) (s : jsstring)
  : jsstring :=
  concat (map (fun c => if class_matches k c then r else [c]) s).

End JS.

(** ** CSS values *)

Module Css.
Import JS.

(** The terms of a [calc()] expression. *)
Inductive calc :=
| CNum (v : Q)
| CMm (v : Q)
| CPx (v : Q)
| CAdd (a b : calc)
| CSub (a b : calc)
| CMul (a b : calc).

(** A [calc()] result: a plain number, or a length, kept in mm. *)
Inductive cval :=
| VNum (v : Q)
| VMm (v : Q).

(** 96px = 1in = 25.4mm *)
Definition mm_per_px : Q := 254 # 960.

Fixpoint eval (c : calc) : option cval :=
  match c with
  | CNum v => Some (VNum v)
  | CMm v => Some (VMm v)
  | CPx v => Some (VMm (v * mm_per_px))
  | CAdd a b =>
      match eval a, eval b with
      | Some (VNum x), Some (VNum y) => Some (VNum (x + y))
      | Some (VMm x), Some (VMm y) => Some (VMm (x + y))
      | _, _ => None
      end
  | CSub a b =>
      match eval a, eval b with
      | Some (VNum x), Some (VNum y) => Some (VNum (x - y))
      | Some (VMm x), Some (VMm y) => Some (VMm (x - y))
      | _, _ => None
      end
  | CMul a b =>
      match eval a, eval b with
      | Some (VNum x), Some (VNum y) => Some (VNum (x * y))
      | Some (VMm x), Some (VNum y) => Some (VMm (x * y))
      | Some (VNum x), Some (VMm y) => Some (VMm (x * y))
      | _, _ => None
      end
  end.

(** The values the inline styles are built from. A constructor stands
    for one template literal, its argument for the spliced number. *)
Inductive value :=
| Pt (v : Q)              (* `${v}pt` *)
| Em (v : Q)              (* `${v}em` *)
| MinusEm (v : Q)         (* `-${v}em` *)
| Mm (v : Q)              (* `${v}mm` *)
| Unitless (v : Q)        (* a bare number *)
| Literal (s : string)    (* a constant string *)
| Family (s : jsstring)   (* a font family name *)
| TranslateYPt (v : Q)    (* `translateY(${v}pt)` *)
| Scale (v : Q)           (* `scale(${v})` *)
| Calc (c : calc).        (* `calc(...)` *)

(** The length, in em, a value stands for where CSS expects a length.
    [String(v)] of a negative number begins with a minus sign, so the
    text of [`-${v}em`] then begins with two minus signs; that is no
    length, and the declaration is dropped. *)
Definition em_length (x : value) : option Q :=
  match x with
  | Em v => Some v
  | MinusEm v => if Qle_bool 0 v then Some (- v)%Q else None
  | _ => None
  end.

Inductive media := Screen | Print.

End Css.

(** ** Numbers *)

Module Number.
Import JS.

(** A JavaScript number: a rational, or [NaN]. *)
Inductive number :=
| NaN
| Num (q : Q).

(** The value of one digit, for radices up to 36. *)
Definition digit_value (c : Z) : option Z :=
  if in_range 0x30 0x39 c then Some (c - 0x30)
  else if in_range 0x61 0x7A c then Some (c - 0x61 + 10)
  else if in_range 0x41 0x5A c then Some (c - 0x41 + 10)
  else None.

(** The longest prefix of radix-[R] digits. *)
Fixpoint take_digits (R : Z) (s : jsstring) : list Z :=
  match s with
  | [] => []
  | c :: s' =>
      match digit_value c with
      | Some d => if d <? R then d :: take_digits R s' else []
      | None => []
      end
  end.

Definition digits_value (R : Z) (ds : list Z) : Z :=
  fold_left (fun acc d => acc * R + d) ds 0.

(** A leading [-] or [+] is taken off and gives the sign. *)
Definition strip_sign (S : jsstring) : Z * jsstring :=
  match S with
  | c :: r =>
      if c =? 0x2D then (-1, r)
      else if c =? 0x2B then (1, r)
      else (1, S)
  | [] => (1, S)
  end.

(** A leading [0x] or [0X] is taken off and selects radix 16. *)
Definition strip_prefix (S : jsstring) : Z * jsstring :=
  match S with
  | c0 :: c1 :: r =>
      if (c0 =? 0x30) && ((c1 =? 0x78) || (c1 =? 0x58))
      then (16, r)
      else (10, S)
  | _ => (10, S)
  end.

(** [parseInt(s)], without a radix argument: leading white space is
    skipped, then a sign, then a radix prefix; the digits that follow
    are read up to the first code unit that is no digit, and without
    a digit the result is [NaN]. *)
Definition parseInt (s : jsstring) : number :=
  let '(sign, S1) := strip_sign (trimStart s) in
  let '(R, S2) := strip_prefix S1 in
  match take_digits R S2 with
  | [] => NaN
  | ds => Num (inject_Z (sign * digits_value R ds))
  end.

(** [n || d] for a number [n]: [NaN] and zero are falsy. *)
Definition or_else (n : number) (d : Q) : Q :=
  match n with
  | NaN => d
  | Num q => if Qeq_bool q 0 then d else q
  end.

End Number.

(** ** The component state and its handlers ([src/App.tsx]) *)

Module App.
Import JS Number.

(** The four text lines of a card; they key the per-field objects
    [fontSize], [offsets], [fontFamilies] and [letterSpacings]. *)
Inductive field := ChineseName | EnglishName | ChineseCompany | EnglishCompany.

Module CardData.
Record t := mk {
  id : jsstring;
  chineseName : jsstring;
  englishName : jsstring;
  chineseCompany : jsstring;
  englishCompany : jsstring
}.
End CardData.

Module Offset.
Record t := mk { x : Q; y : Q }.
End Offset.

(** [Preset.settings] as it comes back from the store. The properties
    that [loadPreset] guards with [??] or [||] may be absent. *)
Module Settings.
Record t := mk {
  fontSize : field -> Q;
  offsets : field -> Q;
  fontFamilies : field -> jsstring;
  letterSpacings : option (field -> Q);
  enableTwoCharWidening : option bool;
  globalSpacing : Q;
  previewScale : option Q;
  showCropMarks : option bool;
  showFoldLine : option bool;
  cropOffset : option Offset.t
}.
End Settings.

Module Preset.
Record t := mk {
  id : jsstring;
  name : jsstring;
  settings : Settings.t
}.
End Preset.

(** The [useState] cells of [App] that take part in the layout. *)
Record State := mkState {
  cards : list CardData.t;
  fontSize : field -> Q;
  offsets : field -> Q;
  fontFamilies : field -> jsstring;
  letterSpacings : field -> Q;
  globalSpacing : Q;
  printRotate : bool;
  previewScale : Q;
  presets : list Preset.t;
  currentPresetId : jsstring;
  isPresetMenuOpen : bool;
  enableTwoCharWidening : bool;
  showCropMarks : bool;
  showFoldLine : bool;
  cropOffset : Offset.t
}.

Definition defaultFontSize (f : field) : Q :=
  match f with
  | ChineseName => 120
  | EnglishName => 90
  | ChineseCompany => 48
  | EnglishCompany => 36
  end.

Definition defaultOffsets (f : field) : Q := 0.

Definition defaultFontFamilies (f : field) : jsstring :=
  match f with
  | ChineseName | ChineseCompany => lit "TableCardCN"
  | EnglishName | EnglishCompany => lit "TableCardEN"
  end.

Definition defaultLetterSpacings (f : field) : Q :=
  match f with
  | ChineseName => 1 # 10
  | EnglishName => 5 # 100
  | ChineseCompany => 0
  | EnglishCompany => 0
  end.

(** The initial values given to [useState]. *)
Definition initialState : State := {|
  cards := [];
  fontSize := defaultFontSize;
  offsets := defaultOffsets;
  fontFamilies := defaultFontFamilies;
  letterSpacings := defaultLetterSpacings;
  globalSpacing := 21;
  printRotate := true;
  previewScale := 75 # 100;
  presets := [];
  currentPresetId := [];
  isPresetMenuOpen := false;
  enableTwoCharWidening := true;
  showCropMarks := true;
  showFoldLine := false;
  cropOffset := Offset.mk 0 0
|}.

(** [a ?? d], and [a || d] for an object [a]. *)
Definition nullish {A} (a : option A) (d : A) : A := default d a.

(** [a || d] for a number that may be absent. *)
Definition number_or (a : option Q) (d : Q) : Q :=
  match a with
  | None => d
  | Some q => or_else (Num q) d
  end.

Definition loadPreset (presetId : jsstring) (st : State) : State :=
  match List.find (fun p => bool_decide (Preset.id p = presetId)) (presets st) with
  | None => st
  | Some preset =>
      let s := Preset.settings preset in
      {| cards := cards st;
         fontSize := Settings.fontSize s;
         offsets := Settings.offsets s;
         fontFamilies := Settings.fontFamilies s;
         letterSpacings :=
           nullish (Settings.letterSpacings s) defaultLetterSpacings;
         globalSpacing := Settings.globalSpacing s;
         printRotate := printRotate st;
         previewScale := number_or (Settings.previewScale s) (75 # 100);
         presets := presets st;
         currentPresetId := presetId;
         isPresetMenuOpen := false;
         enableTwoCharWidening :=
           nullish (Settings.enableTwoCharWidening s) true;
         showCropMarks := nullish (Settings.showCropMarks s) true;
         showFoldLine := nullish (Settings.showFoldLine s) false;
         cropOffset := nullish (Settings.cropOffset s) (Offset.mk 0 0) |}
  end.

Definition resetToDefault (st : State) : State := {|
  cards := cards st;
  fontSize := defaultFontSize;
  offsets := defaultOffsets;
  fontFamilies := defaultFontFamilies;
  letterSpacings := defaultLetterSpacings;
  globalSpacing := 21;
  printRotate := printRotate st;
  previewScale := 75 # 100;
  presets := presets st;
  currentPresetId := [];
  isPresetMenuOpen := false;
  enableTwoCharWidening := true;
  showCropMarks := true;
  showFoldLine := false;
  cropOffset := Offset.mk 0 0
|}.

Definition setCropOffset (f : Offset.t -> Offset.t) (st : State) : State := {|
  cards := cards st;
  fontSize := fontSize st;
  offsets := offsets st;
  fontFamilies := fontFamilies st;
  letterSpacings := letterSpacings st;
  globalSpacing := globalSpacing st;
  printRotate := printRotate st;
  previewScale := previewScale st;
  presets := presets st;
  currentPresetId := currentPresetId st;
  isPresetMenuOpen := isPresetMenuOpen st;
  enableTwoCharWidening := enableTwoCharWidening st;
  showCropMarks := showCropMarks st;
  showFoldLine := showFoldLine st;
  cropOffset := f (cropOffset st)
|}.

Definition setCards (cs : list CardData.t) (st : State) : State := {|
  cards := cs;
  fontSize := fontSize st;
  offsets := offsets st;
  fontFamilies := fontFamilies st;
  letterSpacings := letterSpacings st;
  globalSpacing := globalSpacing st;
  printRotate := printRotate st;
  previewScale := previewScale st;
  presets := presets st;
  currentPresetId := currentPresetId st;
  isPresetMenuOpen := isPresetMenuOpen st;
  enableTwoCharWidening := enableTwoCharWidening st;
  showCropMarks := showCropMarks st;
  showFoldLine := showFoldLine st;
  cropOffset := cropOffset st
|}.

Definition setPrintRotate (b : bool) (st : State) : State := {|
  cards := cards st;
  fontSize := fontSize st;
  offsets := offsets st;
  fontFamilies := fontFamilies st;
  letterSpacings := letterSpacings st;
  globalSpacing := globalSpacing st;
  printRotate := b;
  previewScale := previewScale st;
  presets := presets st;
  currentPresetId := currentPresetId st;
  isPresetMenuOpen := isPresetMenuOpen st;
  enableTwoCharWidening := enableTwoCharWidening st;
  showCropMarks := showCropMarks st;
  showFoldLine := showFoldLine st;
  cropOffset := cropOffset st
|}.

Definition setPreviewScale (v : Q) (st : State) : State := {|
  cards := cards st;
  fontSize := fontSize st;
  offsets := offsets st;
  fontFamilies := fontFamilies st;
  letterSpacings := letterSpacings st;
  globalSpacing := globalSpacing st;
  printRotate := printRotate st;
  previewScale := v;
  presets := presets st;
  currentPresetId := currentPresetId st;
  isPresetMenuOpen := isPresetMenuOpen st;
  enableTwoCharWidening := enableTwoCharWidening st;
  showCropMarks := showCropMarks st;
  showFoldLine := showFoldLine st;
  cropOffset := cropOffset st
|}.

Definition setPresets (ps : list Preset.t) (st : State) : State := {|
  cards := cards st;
  fontSize := fontSize st;
  offsets := offsets st;
  fontFamilies := fontFamilies st;
  letterSpacings := letterSpacings st;
  globalSpacing := globalSpacing st;
  printRotate := printRotate st;
  previewScale := previewScale st;
  presets := ps;
  currentPresetId := currentPresetId st;
  isPresetMenuOpen := isPresetMenuOpen st;
  enableTwoCharWidening := enableTwoCharWidening st;
  showCropMarks := showCropMarks st;
  showFoldLine := showFoldLine st;
  cropOffset := cropOffset st
|}.

Definition setLetterSpacings (ls : field -> Q) (st : State) : State := {|
  cards := cards st;
  fontSize := fontSize st;
  offsets := offsets st;
  fontFamilies := fontFamilies st;
  letterSpacings := ls;
  globalSpacing := globalSpacing st;
  printRotate := printRotate st;
  previewScale := previewScale st;
  presets := presets st;
  currentPresetId := currentPresetId st;
  isPresetMenuOpen := isPresetMenuOpen st;
  enableTwoCharWidening := enableTwoCharWidening st;
  showCropMarks := showCropMarks st;
  showFoldLine := showFoldLine st;
  cropOffset := cropOffset st
|}.

(** The [onChange] handlers of the two crop-offset inputs; [value] is
    [e.target.value]. *)
Definition onChangeCropOffsetX (value : jsstring) : State -> State :=
  setCropOffset (fun prev =>
    Offset.mk (or_else (parseInt value) 0) (Offset.y prev)).

Definition onChangeCropOffsetY (value : jsstring) : State -> State :=
  setCropOffset (fun prev =>
    Offset.mk (Offset.x prev) (or_else (parseInt value) 0)).

(** *** Typography of the four text lines *)

(** [/^[一-龥]{2}$/] *)
Definition two_ideographs : pattern :=
  [AssertBegin; Repeat (CharClass false [(0x4e00, 0x9fa5)]) 2; AssertEnd].

(** The number spliced into [letterSpacing] and [marginRight] of the
    [chineseName] line. *)
Definition chineseName_tracking
    (enableTwoCharWidening : bool) (chineseName : jsstring) (t : Q) : Q :=
  if enableTwoCharWidening && test two_ideographs (trim chineseName)
  then (1 + 2 * t)%Q
  else t.

(** *** The rendered tree

    The part of the JSX below [print-container]. A [className] is kept
    as its list of class names. *)

Import Css.

(** [cn(...inputs)]: the truthy inputs, joined by a space. *)
Definition cn (inputs : list (option string)) : list string :=
  omap (fun i => i) inputs.

(** [cond && cls], as an argument of [cn]. *)
Definition and_class (cond : bool) (cls : string) : option string :=
  if cond then Some cls else None.

Module Line.
Record t := mk {
  fontSize : value;
  fontFamily : value;
  letterSpacing : value;
  lineHeight : value;
  color : value;
  transform : value;
  marginRight : value;
  className : list string;
  text : jsstring
}.
End Line.

Definition chineseNameLine (st : State) (card : CardData.t) : Line.t := {|
  Line.fontSize := Pt (fontSize st ChineseName);
  Line.fontFamily := Family (fontFamilies st ChineseName);
  Line.letterSpacing :=
    Em (chineseName_tracking (enableTwoCharWidening st)
          (CardData.chineseName card) (letterSpacings st ChineseName));
  Line.lineHeight := Unitless (11 # 10);
  Line.color := Literal "#000";
  Line.transform := TranslateYPt (offsets st ChineseName + 25);
  Line.marginRight :=
    MinusEm (chineseName_tracking (enableTwoCharWidening st)
               (CardData.chineseName card) (letterSpacings st ChineseName));
  Line.className := [];
  Line.text := CardData.chineseName card
|}.

Definition englishNameLine (st : State) (card : CardData.t) : Line.t := {|
  Line.fontSize := Pt (fontSize st EnglishName);
  Line.fontFamily := Family (fontFamilies st EnglishName);
  Line.letterSpacing := Em (letterSpacings st EnglishName);
  Line.lineHeight := Unitless (11 # 10);
  Line.color := Literal "#000";
  Line.transform := TranslateYPt (offsets st EnglishName + 12);
  Line.marginRight := MinusEm (letterSpacings st EnglishName);
  Line.className := [];
  Line.text := CardData.englishName card
|}.

Definition chineseCompanyLine (st : State) (card : CardData.t) : Line.t := {|
  Line.fontSize := Pt (fontSize st ChineseCompany);
  Line.fontFamily := Family (fontFamilies st ChineseCompany);
  Line.letterSpacing := Em (letterSpacings st ChineseCompany);
  Line.lineHeight := Unitless (11 # 10);
  Line.color := Literal "#000";
  Line.transform := TranslateYPt (offsets st ChineseCompany - 5);
  Line.marginRight := MinusEm (letterSpacings st ChineseCompany);
  Line.className := ["max-w-[80%]"; "whitespace-normal"];
  Line.text := CardData.chineseCompany card
|}.

Definition englishCompanyLine (st : State) (card : CardData.t) : Line.t := {|
  Line.fontSize := Pt (fontSize st EnglishCompany);
  Line.fontFamily := Family (fontFamilies st EnglishCompany);
  Line.letterSpacing := Em (letterSpacings st EnglishCompany);
  Line.lineHeight := Unitless (11 # 10);
  Line.color := Literal "#000";
  Line.transform := TranslateYPt (offsets st EnglishCompany - 10);
  Line.marginRight := MinusEm (letterSpacings st EnglishCompany);
  Line.className := ["max-w-[80%]"; "whitespace-normal"];
  Line.text := CardData.englishCompany card
|}.

(** The line of a field, in the order of the source. *)
Definition line (f : field) : State -> CardData.t -> Line.t :=
  match f with
  | ChineseName => chineseNameLine
  | EnglishName => englishNameLine
  | ChineseCompany => chineseCompanyLine
  | EnglishCompany => englishCompanyLine
  end.

(** One face of the card: [<div key={view.side} ...>]. *)
Module Side.
Record t := mk {
  key : string;
  className : list string;
  gap : value;
  lines : list Line.t
}.
End Side.

Definition views : list (string * list string) :=
  [("top", ["card-side"; "card-side-top"]); ("bottom", ["card-side"])].

Definition printArea (st : State) (card : CardData.t) : list Side.t :=
  map (fun view =>
         {| Side.key := fst view;
            Side.className := snd view;
            Side.gap := Pt (globalSpacing st);
            Side.lines :=
              [chineseNameLine st card; englishNameLine st card;
               chineseCompanyLine st card; englishCompanyLine st card] |})
      views.

(** A crop mark with the insets of its inline style. *)
Module CropMark.
Record t := mk {
  className : list string;
  top : option value;
  right : option value;
  bottom : option value;
  left : option value
}.
End CropMark.

Definition cropMarks (st : State) : list CropMark.t :=
  if showCropMarks st then
    let o := cropOffset st in
    [ {| CropMark.className := ["crop-mark"; "crop-top-left"];
         CropMark.top := Some (Mm (- Offset.y o));
         CropMark.left := Some (Mm (- Offset.x o));
         CropMark.right := None; CropMark.bottom := None |};
      {| CropMark.className := ["crop-mark"; "crop-top-right"];
         CropMark.top := Some (Mm (- Offset.y o));
         CropMark.right := Some (Mm (- Offset.x o));
         CropMark.left := None; CropMark.bottom := None |};
      {| CropMark.className := ["crop-mark"; "crop-bottom-left"];
         CropMark.bottom := Some (Mm (- Offset.y o));
         CropMark.left := Some (Mm (- Offset.x o));
         CropMark.right := None; CropMark.top := None |};
      {| CropMark.className := ["crop-mark"; "crop-bottom-right"];
         CropMark.bottom := Some (Mm (- Offset.y o));
         CropMark.right := Some (Mm (- Offset.x o));
         CropMark.left := None; CropMark.top := None |} ]
  else [].

(** [<div className="card-container">] *)
Module CardContainer.
Record t := mk {
  className : list string;
  cropMarks : list CropMark.t;
  foldLine : bool;
  printArea : list Side.t
}.
End CardContainer.

Definition cardContainer (st : State) (card : CardData.t) : CardContainer.t := {|
  CardContainer.className := ["card-container"];
  CardContainer.cropMarks := cropMarks st;
  CardContainer.foldLine := showFoldLine st;
  CardContainer.printArea := printArea st card
|}.

(** [<div className="print-page shadow-2xl">] *)
Module PrintPage.
Record t := mk {
  className : list string;
  container : CardContainer.t
}.
End PrintPage.

Definition printPage (st : State) (card : CardData.t) : PrintPage.t := {|
  PrintPage.className := ["print-page"; "shadow-2xl"];
  PrintPage.container := cardContainer st card
|}.

(** [<div key={card.id} className="preview-card-wrapper ...">]; the
    last field tells whether the [card-ui-divider no-print] block
    follows the page. *)
Module Wrapper.
Record t := mk {
  key : jsstring;
  className : list string;
  transform : value;
  marginBottom : value;
  height : value;
  page : PrintPage.t;
  divider : bool
}.
End Wrapper.

Definition wrapper (st : State) (index : nat) (card : CardData.t) : Wrapper.t := {|
  Wrapper.key := CardData.id card;
  Wrapper.className :=
    ["preview-card-wrapper"; "transition-all"; "duration-300"; "origin-top"];
  Wrapper.transform := Scale (previewScale st);
  Wrapper.marginBottom :=
    Calc (CAdd (CMul (CMm (-420)) (CSub (CNum 1) (CNum (previewScale st))))
               (CPx 0));
  Wrapper.height := Literal "420mm";
  Wrapper.page := printPage st card;
  Wrapper.divider :=
    Z.of_nat index <? Z.of_nat (length (cards st)) - 1
|}.

(** [<div ref={printRef} className={cn("print-container", ...)}>] *)
Module PrintContainer.
Record t := mk {
  className : list string;
  children : list Wrapper.t
}.
End PrintContainer.

(** The preview section: [None] stands for the start panel shown while
    there is no card. *)
Definition render (st : State) : option PrintContainer.t :=
  match cards st with
  | [] => None
  | _ :: _ =>
      Some {| PrintContainer.className :=
                cn [Some "print-container";
                    and_class (printRotate st) "print-rotate-mode"];
              PrintContainer.children := imap (wrapper st) (cards st) |}
  end.

(** The pages, in output order. *)
Definition pages (st : State) : list PrintPage.t :=
  match render st with
  | None => []
  | Some c => map Wrapper.page (PrintContainer.children c)
  end.

(** *** The print style sheet of the component *)

(** [.print-container:not(.print-rotate-mode) .card-container]: the
    element has class [card-container] and some ancestor, given by its
    class list, is a [print-container] without [print-rotate-mode]. *)
Definition auto_scale_selects
    (ancestors : list (list string)) (classes : list string) : bool :=
  bool_decide ("card-container" ∈ classes)
  && existsb (fun a => bool_decide ("print-container" ∈ a)
                       && negb (bool_decide ("print-rotate-mode" ∈ a)))
             ancestors.

(** Modelled from the spec: [index.css], which styles [.card-container]
    outside the rule above, is not among the sources. The spec gives the
    face pair no down-scaling where the auto-scale rule does not apply. *)
Definition base_scale : Q := 1.

(** The scale of the transform the card container of [w] is printed or
    shown with. The rule sits in [@media print] and is [!important]. *)
Definition card_container_scale
    (m : media) (c : PrintContainer.t) (w : Wrapper.t) : Q :=
  match m with
  | Print =>
      if auto_scale_selects
           [PrintPage.className (Wrapper.page w); Wrapper.className w;
            PrintContainer.className c]
           (CardContainer.className (PrintPage.container (Wrapper.page w)))
      then 83 # 100
      else base_scale
  | Screen => base_scale
  end.

(** *** Where an inset puts a crop mark *)

Inductive corner := TopLeft | TopRight | BottomLeft | BottomRight.

Definition corner_class (k : corner) : string :=
  match k with
  | TopLeft => "crop-top-left"
  | TopRight => "crop-top-right"
  | BottomLeft => "crop-bottom-left"
  | BottomRight => "crop-bottom-right"
  end.

Definition inset_mm (v : option value) : option Q :=
  match v with
  | Some (Mm q) => Some q
  | _ => None
  end.

(** Modelled from the spec: the [.crop-mark] rules are in [index.css],
    which is not among the sources. A mark is taken to be a box of
    [w] by [h] mm, absolutely positioned in the card container of [W]
    by [H] mm: an inset is the distance between the like-named edges
    of the two boxes, measured inwards. Coordinates have their origin
    at the top left corner of the container, x to the right and y
    downwards. *)
Definition mark_left (W w : Q) (m : CropMark.t) : Q :=
  match inset_mm (CropMark.left m), inset_mm (CropMark.right m) with
  | Some l, _ => l
  | None, Some r => (W - r - w)%Q
  | None, None => 0
  end.

Definition mark_top (H h : Q) (m : CropMark.t) : Q :=
  match inset_mm (CropMark.top m), inset_mm (CropMark.bottom m) with
  | Some t, _ => t
  | None, Some b => (H - b - h)%Q
  | None, None => 0
  end.

(** The corner [k] of a box whose top left corner is at [(X, Y)]. *)
Definition corner_of (k : corner) (X Y w h : Q) : Q * Q :=
  match k with
  | TopLeft => (X, Y)
  | TopRight => (X + w, Y)%Q
  | BottomLeft => (X, Y + h)%Q
  | BottomRight => (X + w, Y + h)%Q
  end.

(** From the corner [k] of the container to the corner [k] of the mark. *)
Definition mark_displacement
    (W H w h : Q) (k : corner) (m : CropMark.t) : Q * Q :=
  let '(mx, my) := corner_of k (mark_left W w m) (mark_top H h m) w h in
  let '(cx, cy) := corner_of k 0 0 W H in
  (mx - cx, my - cy)%Q.

End App.

(** ** The font store ([server/index.js]) *)

Module Server.
Import JS.

(** The [fontFile] part of a multipart request. *)
Module File.
Record t := mk {
  originalname : jsstring;
  content : list Z
}.
End File.

(** [/[^a-zA-Z0-9_一-龥.]/] *)
Definition unsafe_char : char_class :=
  CharClass true
    [(0x61, 0x7A); (0x41, 0x5A); (0x30, 0x39); (0x5F, 0x5F);
     (0x4e00, 0x9fa5); (0x2E, 0x2E)].

(** The [filename] callback of [multer.diskStorage]. *)
Definition filename (file : File.t) : jsstring :=
  replace_class unsafe_char (lit "_") (File.originalname file).

(** [upload.single('fontFile')] over the disk storage, with [FONTS_DIR]
    as a map from file names to contents: the part, when there is one,
    is written under its sanitized name and becomes [req.file]. The
    storage is set up without a [fileFilter]. *)
Definition upload_single
    (part : option File.t) (dir : gmap (list Z) (list Z))
  : gmap (list Z) (list Z) * option jsstring :=
  match part with
  | None => (dir, None)
  | Some file => (<[filename file := File.content file]> dir,
                  Some (filename file))
  end.

Module CustomFont.
Record t := mk {
  name : jsstring;
  fileName : jsstring;
  url : jsstring
}.
End CustomFont.

Inductive body :=
| ErrorBody (error : string)
| UploadBody (success : bool) (font : CustomFont.t)
| ListBody (fonts : list CustomFont.t).

Record response := mkResponse {
  status : Z;
  json : body
}.

(** [f.split('.')[0]] *)
Fixpoint before_dot (f : jsstring) : jsstring :=
  match f with
  | [] => []
  | c :: r => if c =? 0x2E then [] else c :: before_dot r
  end.

Definition fontOf (f : jsstring) : CustomFont.t := {|
  CustomFont.name := before_dot f;
  CustomFont.fileName := f;
  CustomFont.url := lit "/api/fonts/" ++ f
|}.

(** [app.post('/api/fonts', upload.single('fontFile'), ...)] *)
Definition post_fonts
    (part : option File.t) (dir : gmap (list Z) (list Z))
  : gmap (list Z) (list Z) * response :=
  let '(dir', file) := upload_single part dir in
  match file with
  | None => (dir', mkResponse 400 (ErrorBody "No file uploaded"))
  | Some f => (dir', mkResponse 200 (UploadBody true (fontOf f)))
  end.

Definition to_lower (c : Z) : Z :=
  if in_range 0x41 0x5A c then c + 32 else c.

(** [/\.(ttf|otf|woff|woff2)$/i.test(f)] *)
Definition is_font_file (f : jsstring) : bool :=
  existsb (fun ext => bool_decide (suffix (0x2E :: lit ext) (map to_lower f)))
          ["ttf"; "otf"; "woff"; "woff2"]%string.

(** [app.get('/api/fonts', ...)]: only font files are listed. *)
Definition get_fonts (dir : gmap (list Z) (list Z)) : response :=
  mkResponse 200
    (ListBody (map fontOf (filter (fun f => is_font_file f = true)
                                  (elements (dom dir))))).

End Server.

(** ** Editing the card list ([src/App.tsx]) *)

Module Cards.
Import JS App.

Definition getField (f : field) (c : CardData.t) : jsstring :=
  match f with
  | ChineseName => CardData.chineseName c
  | EnglishName => CardData.englishName c
  | ChineseCompany => CardData.chineseCompany c
  | EnglishCompany => CardData.englishCompany c
  end.

(** [{ ...c, [field]: value }] for one of the four text fields. *)
Definition setField (f : field) (value : jsstring) (c : CardData.t) : CardData.t :=
  match f with
  | ChineseName =>
      CardData.mk (CardData.id c) value (CardData.englishName c)
        (CardData.chineseCompany c) (CardData.englishCompany c)
  | EnglishName =>
      CardData.mk (CardData.id c) (CardData.chineseName c) value
        (CardData.chineseCompany c) (CardData.englishCompany c)
  | ChineseCompany =>
      CardData.mk (CardData.id c) (CardData.chineseName c)
        (CardData.englishName c) value (CardData.englishCompany c)
  | EnglishCompany =>
      CardData.mk (CardData.id c) (CardData.chineseName c)
        (CardData.englishName c) (CardData.chineseCompany c) value
  end.

(** [cards.map(c => c.id === id ? { ...c, [field]: value } : c)] *)
Definition updateCard
    (id : jsstring) (f : field) (value : jsstring) (st : State) : State :=
  setCards
    (map (fun c => if bool_decide (CardData.id c = id)
                   then setField f value c else c)
         (cards st))
    st.

(** [cards.filter(c => c.id !== id)] *)
Definition removeCard (id : jsstring) (st : State) : State :=
  setCards (filter (fun c => CardData.id c <> id) (cards st)) st.

(** The record [addEmptyCard] puts in front of the list; [newId] stands
    for the random id. *)
Definition emptyCard (newId : jsstring) : CardData.t :=
  CardData.mk newId
    [0x59d3; 0x540d]
    (lit "Name")
    [0x6240; 0x5728; 0x5355; 0x4f4d; 0x2f; 0x90e8; 0x95e8]
    (lit "Organization Name").

Definition addEmptyCard (newId : jsstring) (st : State) : State :=
  setCards (emptyCard newId :: cards st) st.

End Cards.

(** ** Importing a sheet ([handleFileUpload] in [src/App.tsx]) *)

Module Spreadsheet.
Import JS App.

(** A cell of a row object made by [sheet_to_json]. *)
Inductive cell :=
| Text (s : jsstring)
| Numeric (v : Q)
| Boolean (b : bool).

Definition truthy (c : cell) : bool :=
  match c with
  | Text s => negb (bool_decide (s = []))
  | Numeric v => negb (Qeq_bool v 0)
  | Boolean b => b
  end.

(** [a || b], where [None] is [undefined]. *)
Definition or_value (a b : option cell) : option cell :=
  match a with
  | Some c => if truthy c then a else b
  | None => b
  end.

Section Mapping.

(** [String(v)] on a number. *)
Variable numberToString : Q -> jsstring.

(** [String(v)] *)
Definition toString (v : option cell) : jsstring :=
  match v with
  | None => lit "undefined"
  | Some (Text s) => s
  | Some (Numeric q) => numberToString q
  | Some (Boolean true) => lit "true"
  | Some (Boolean false) => lit "false"
  end.

(** [String(item[k1] || item[k2] || ... || '')] *)
Definition column (keys : list jsstring) (item : gmap (list Z) cell) : jsstring :=
  toString
    (or_value (fold_left (fun acc k => or_value acc (item !! k)) keys None)
              (Some (Text []))).

Definition chineseNameKeys : list jsstring :=
  [[0x4e2d; 0x6587; 0x540d]; lit "Name"; [0x59d3; 0x540d]].

Definition englishNameKeys : list jsstring :=
  [[0x82f1; 0x6587; 0x540d]; lit "English Name"; [0x62fc; 0x97f3]].

Definition chineseCompanyKeys : list jsstring :=
  [[0x4e2d; 0x6587; 0x516c; 0x53f8]; lit "Company"; [0x5355; 0x4f4d]].

Definition englishCompanyKeys : list jsstring :=
  [[0x82f1; 0x6587; 0x516c; 0x53f8]; lit "English Company"].

(** One row of [data.map(...)]; [newId] stands for the random id. *)
Definition mapRow (newId : jsstring) (item : gmap (list Z) cell) : CardData.t :=
  CardData.mk newId
    (column chineseNameKeys item)
    (column englishNameKeys item)
    (column chineseCompanyKeys item)
    (column englishCompanyKeys item).

(** [setCards([...cards, ...mappedData])] in [reader.onload]. The file
    is read asynchronously: [captured] is the [cards] of the render in
    which the file was chosen, which the callback closes over, and [st]
    is the state at the time the callback runs. [ids i] is the id drawn
    for row [i]. *)
Definition handleFileUpload
    (ids : nat -> jsstring) (data : list (gmap (list Z) cell))
    (captured : list CardData.t) (st : State)
  : State :=
  setCards (captured ++ imap (fun i item => mapRow (ids i) item) data) st.

End Mapping.

End Spreadsheet.

(** ** Presets, in the component and in the store *)

Module Presets.
Import JS App.

(** [l.findIndex(p)], with [None] for -1. *)
Fixpoint findIndex {A} (p : A -> bool) (l : list A) : option nat :=
  match l with
  | [] => None
  | x :: r => if p x then Some 0%nat else S <$> findIndex p r
  end.

(** Replace the first preset that has the id of [newPreset], or append.
    The component ([setPresets] in [savePreset]) and the store
    ([POST /api/presets]) do the same. *)
Definition upsert (newPreset : Preset.t) (prev : list Preset.t) : list Preset.t :=
  match findIndex (fun p => bool_decide (Preset.id p = Preset.id newPreset)) prev with
  | Some idx => <[idx := newPreset]> prev
  | None => prev ++ [newPreset]
  end.

(** [db.presets.filter(p => p.id !== id)] in [DELETE /api/presets/:id],
    and [presets.filter(p => p.id !== presetId)] in the component. *)
Definition remove (id : jsstring) (prev : list Preset.t) : list Preset.t :=
  filter (fun p => Preset.id p <> id) prev.

(** The [settings] object [savePreset] builds from the state. *)
Definition currentSettings (st : State) : Settings.t := {|
  Settings.fontSize := fontSize st;
  Settings.offsets := offsets st;
  Settings.fontFamilies := fontFamilies st;
  Settings.letterSpacings := Some (letterSpacings st);
  Settings.enableTwoCharWidening := Some (enableTwoCharWidening st);
  Settings.globalSpacing := globalSpacing st;
  Settings.showCropMarks := Some (showCropMarks st);
  Settings.showFoldLine := Some (showFoldLine st);
  Settings.cropOffset := Some (cropOffset st);
  Settings.previewScale := Some (previewScale st)
|}.

Definition setCurrentPresetId (id : jsstring) (st : State) : State := {|
  cards := cards st;
  fontSize := fontSize st;
  offsets := offsets st;
  fontFamilies := fontFamilies st;
  letterSpacings := letterSpacings st;
  globalSpacing := globalSpacing st;
  printRotate := printRotate st;
  previewScale := previewScale st;
  presets := presets st;
  currentPresetId := id;
  isPresetMenuOpen := isPresetMenuOpen st;
  enableTwoCharWidening := enableTwoCharWidening st;
  showCropMarks := showCropMarks st;
  showFoldLine := showFoldLine st;
  cropOffset := cropOffset st
|}.

(** The preset [savePreset] sends: under the id of the preset that has
    this name already, or else under the random id. *)
Definition newPreset (name randomId : jsstring) (st : State) : Preset.t :=
  Preset.mk
    match findIndex (fun p => bool_decide (Preset.name p = name)) (presets st) with
    | Some i => default randomId (Preset.id <$> presets st !! i)
    | None => randomId
    end
    name (currentSettings st).

(** [savePreset]. [name] is the answer to [window.prompt] ([None] when
    it is dismissed), [overwrite] the answer to [window.confirm], asked
    only when the name exists, and [saved] tells whether the request to
    the store succeeded. *)
Definition savePreset
    (name : option jsstring) (randomId : jsstring) (overwrite saved : bool)
    (st : State) : State :=
  match name with
  | None => st
  | Some [] => st
  | Some name =>
      let exists_ :=
        bool_decide
          (is_Some (findIndex (fun p => bool_decide (Preset.name p = name))
                              (presets st))) in
      if exists_ && negb overwrite then st
      else if saved then
        let p := newPreset name randomId st in
        setCurrentPresetId (Preset.id p) (setPresets (upsert p (presets st)) st)
      else st
  end.


End Presets.

(** ** Fonts, in the store and in the component *)

Module Fonts.
Import JS Server.

(** [s.split('/')] *)
Fixpoint split_slash (s : jsstring) : list jsstring :=
  match s with
  | [] => [[]]
  | c :: r =>
      if c =? 0x2F then [] :: split_slash r
      else match split_slash r with
           | seg :: segs => (c :: seg) :: segs
           | [] => [[c]]
           end
  end.

(** One segment of a path that is being normalized: [acc] counts the
    levels above the starting directory and lists the segments below,
    the innermost first. Empty segments and [.] are skipped, [..] drops
    the innermost segment or climbs one level. *)
Definition normalize_step
    (acc : nat * list jsstring) (seg : jsstring) : nat * list jsstring :=
  if bool_decide (seg = []) || bool_decide (seg = [0x2E]) then acc
  else if bool_decide (seg = [0x2E; 0x2E]) then
    match snd acc with
    | [] => (S (fst acc), [])
    | _ :: below => (fst acc, below)
    end
  else (fst acc, seg :: snd acc).

(** Where [path.join(FONTS_DIR, fileName)] lies relative to [FONTS_DIR],
    with POSIX separators. *)
Definition resolve (fileName : jsstring) : nat * list jsstring :=
  fold_left normalize_step (split_slash fileName) (0%nat, []).

(** The joined path keeps a slash at its end. *)
Definition ends_with_slash (fileName : jsstring) : bool :=
  match last fileName with
  | Some c => c =? 0x2F
  | None => false
  end.

(** What a removal leaves of the fonts directory. *)
Inductive removal :=
| Kept (dir : gmap (list Z) (list Z))
    (* the directory is there and holds these files *)
| DirectoryRemoved
    (* the path was the directory itself: it is gone with all its files *)
| Outside (up : nat) (below : list jsstring).
    (* the path lies [S up] levels above the directory, then [below]:
       what is removed there, the directory possibly included, is not
       part of this model *)

(** [DELETE /api/fonts/:fileName], where [fileName] is the decoded route
    parameter: [fs.remove] runs on [path.join(FONTS_DIR, fileName)]
    whenever [fs.pathExists] finds that path. A path with a NUL, a path
    below a stored file and the path of a file followed by a slash do
    not exist. *)
Definition delete_font
    (fileName : jsstring) (dir : gmap (list Z) (list Z)) : removal :=
  if bool_decide (0 ∈ fileName) then Kept dir
  else
    match resolve fileName with
    | (O, []) => DirectoryRemoved
    | (O, [name]) =>
        if ends_with_slash fileName then Kept dir
        else match dir !! name with
             | Some _ => Kept (delete name dir)
             | None => Kept dir
             end
    | (O, _ :: _ :: _) => Kept dir
    | (S up, below) => Outside up (rev below)
    end.

(** The updater of [setCustomFonts] in [processFontFiles]. *)
Definition addCustomFont
    (fontData : CustomFont.t) (prev : list CustomFont.t) : list CustomFont.t :=
  filter (fun f => CustomFont.name f <> CustomFont.name fontData) prev
  ++ [fontData].

End Fonts.

(** ** Specification-side vocabulary *)

Definition PAGE_WIDTH_MM : Q := 297.
Definition PAGE_HEIGHT_MM : Q := 420.
Definition NATIVE_CONTENT_WIDTH_MM : Q := 357.

(** A code unit of the range the widening rule accepts, U+4E00 to U+9FA5. *)
Definition ideograph (c : Z) : Prop := 0x4e00 <= c <= 0x9fa5.

(** The trimmed string is two ideographs and nothing else. *)
Definition exactly_two_ideographs (s : JS.jsstring) : Prop :=
  exists a b, JS.trim s = [a; b] /\ ideograph a /\ ideograph b.

(** The baseline anchor of each line, in pt. *)
Definition FIELD_BASELINE_PT (f : App.field) : Q :=
  match f with
  | App.ChineseName => 25
  | App.EnglishName => 12
  | App.ChineseCompany => -5
  | App.EnglishCompany => -10
  end.

(** The direction that leads away from the centre at each corner. *)
Definition outward (k : App.corner) : Q * Q :=
  match k with
  | App.TopLeft => (-1, -1)%Q
  | App.TopRight => (1, -1)%Q
  | App.BottomLeft => (-1, 1)%Q
  | App.BottomRight => (1, 1)%Q
  end.

(** Sample records and states for the examples. *)
Definition zhang_san : App.CardData.t :=
  App.CardData.mk (JS.lit "k1") [0x5f20; 0x4e09] (JS.lit "San Zhang")
    [0x793a; 0x4f8b; 0x5355; 0x4f4d] (JS.lit "Sample Org").

Definition li_xiaoming : App.CardData.t :=
  App.CardData.mk (JS.lit "k2") [0x674e; 0x5c0f; 0x660e] (JS.lit "Xiaoming Li")
    [] (JS.lit "Org").

Definition one_card : App.State := App.setCards [zhang_san] App.initialState.

Definition one_card_unrotated : App.State := App.setPrintRotate false one_card.

(** A preset saved before the fold line, the crop marks and the crop
    offset were introduced. *)
Definition legacy_preset : App.Preset.t :=
  App.Preset.mk (JS.lit "p1") (JS.lit "old")
    (App.Settings.mk App.defaultFontSize App.defaultOffsets
       App.defaultFontFamilies None None 21 None None None None).

(** The state after -0.05 has been entered as the tracking of the
    [englishName] line. *)
Definition negative_tracking : App.State :=
  App.setLetterSpacings
    (fun f => match f with
              | App.EnglishName => - (5 # 100)
              | _ => App.letterSpacings one_card f
              end)%Q
    one_card.

(** *** Calibration entries *)

Definition is_integer (q : Q) : Prop := exists z : Z, q = inject_Z z.

(** The states reached through the two crop-offset inputs: the offset
    starts at [{x: 0, y: 0}], each input event stores what its handler
    computes, and nothing else touches the offset. *)
Inductive calibrated : App.State -> Prop :=
| calibrated_start st :
    App.cropOffset st = App.Offset.mk 0 0 -> calibrated st
| calibrated_x value st :
    calibrated st -> calibrated (App.onChangeCropOffsetX value st)
| calibrated_y value st :
    calibrated st -> calibrated (App.onChangeCropOffsetY value st)
| calibrated_other st st' :
    calibrated st -> App.cropOffset st' = App.cropOffset st -> calibrated st'.

(** An entry in plain decimal notation: an optional minus sign, integer
    digits and, after a point, fraction digits. Digits are given by their
    values. *)
Record decimal_entry := DecimalEntry {
  negative : bool;
  int_digits : list Z;
  frac_digits : option (list Z)
}.

Definition digits_ok (ds : list Z) : Prop := Forall (fun d => 0 <= d <= 9) ds.

Definition well_formed (e : decimal_entry) : Prop :=
  digits_ok (int_digits e) /\ digits_ok (default [] (frac_digits e)).

Definition digit_chars (ds : list Z) : JS.jsstring := map (fun d => 0x30 + d) ds.

(** The text typed into the input. *)
Definition entry_text (e : decimal_entry) : JS.jsstring :=
  (if negative e then [0x2D] else [])
  ++ digit_chars (int_digits e)
  ++ match frac_digits e with
     | Some fs => 0x2E :: digit_chars fs
     | None => []
     end.

(** Positional value of a digit sequence. *)
Fixpoint decimal_value (ds : list Z) : Z :=
  match ds with
  | [] => 0
  | d :: r => d * 10 ^ Z.of_nat (length r) + decimal_value r
  end.

(** The number the entry denotes. *)
Definition entry_value (e : decimal_entry) : Q :=
  let fs := default [] (frac_digits e) in
  let m := (inject_Z (decimal_value (int_digits e))
            + inject_Z (decimal_value fs)
              / inject_Z (10 ^ Z.of_nat (length fs)))%Q in
  if negative e then (- m)%Q else m.

(** A code unit of a plain decimal body: a digit or the point. *)
Definition plain (c : Z) : Prop := c = 0x2E \/ 0x30 <= c <= 0x39.

(** An entry in exponent notation: a decimal mantissa, the letter e, and
    an exponent with an optional minus sign. *)
Record scientific_entry := ScientificEntry {
  mantissa : decimal_entry;
  exponent_negative : bool;
  exponent_digits : list Z
}.

Definition scientific_text (e : scientific_entry) : JS.jsstring :=
  entry_text (mantissa e)
  ++ 0x65 :: (if exponent_negative e then [0x2D] else [])
  ++ digit_chars (exponent_digits e).

(** The number the entry denotes: the mantissa times a power of ten. *)
Definition scientific_value (e : scientific_entry) : Q :=
  (entry_value (mantissa e)
   * 10 ^ ((if exponent_negative e then -1 else 1)
           * decimal_value (exponent_digits e)))%Q.

(** The entries 5e-1, which is 0.5, and 1.5e1, which is 15. *)
Definition five_e_minus_one : scientific_entry :=
  ScientificEntry (DecimalEntry false [5] None) true [1].

Definition one_point_five_e_one : scientific_entry :=
  ScientificEntry (DecimalEntry false [1] (Some [5])) false [1].

(** Rounding towards zero. *)
Definition truncate (q : Q) : Z :=
  if Qle_bool 0 q then Qfloor q else Qceiling q.

(** *** Font uploads *)

(** The extensions the font store is meant to take. *)
Definition accepted_extension (name : JS.jsstring) : bool :=
  Server.is_font_file name.

(** An upload that is no font. *)
Definition notes_txt : Server.File.t :=
  Server.File.mk (JS.lit "notes.txt") [0x68; 0x69].

(** *** Further vocabulary *)

(** A code unit that [trim] and [parseInt] skip. *)
Definition blank (c : Z) : Prop := JS.is_str_white_space c = true.

(** The text does not begin with a decimal digit. *)
Definition starts_without_digit (body : JS.jsstring) : Prop :=
  match body with
  | [] => True
  | c :: _ => ~ (0x30 <= c <= 0x39)
  end.

(** The text begins with neither white space nor a sign. *)
Definition starts_unsigned (body : JS.jsstring) : Prop :=
  match body with
  | [] => True
  | c :: _ => c <> 0x2D /\ c <> 0x2B /\ ~ blank c
  end.

(** The first cell, in the order of the keys, that is there and truthy. *)
Fixpoint first_truthy
    (keys : list JS.jsstring) (item : gmap (list Z) Spreadsheet.cell)
  : option Spreadsheet.cell :=
  match keys with
  | [] => None
  | k :: r =>
      match item !! k with
      | Some c => if Spreadsheet.truthy c then Some c else first_truthy r item
      | None => first_truthy r item
      end
  end.

(** [undefined] counts as falsy. *)
Definition is_truthy (o : option Spreadsheet.cell) : bool :=
  match o with
  | Some c => Spreadsheet.truthy c
  | None => false
  end.

(** All the headers the import looks at. *)
Definition mapped_headers : list JS.jsstring :=
  Spreadsheet.chineseNameKeys ++ Spreadsheet.englishNameKeys
  ++ Spreadsheet.chineseCompanyKeys ++ Spreadsheet.englishCompanyKeys.

(** A sheet row with a Chinese name under its second alias, an empty
    cell under the first, and a column the import does not know. *)
Definition sample_row : gmap (list Z) Spreadsheet.cell :=
  <[ [0x4e2d; 0x6587; 0x540d] := Spreadsheet.Text [] ]>
    (<[ JS.lit "Name" := Spreadsheet.Text [0x5f20; 0x4e09] ]>
       (<[ JS.lit "Title" := Spreadsheet.Text (JS.lit "Dr") ]> ∅)).

Definition no_digits (q : Q) : JS.jsstring := [].

(** A second stored preset, saved with every setting. *)
Definition full_preset : App.Preset.t :=
  App.Preset.mk (JS.lit "p2") (JS.lit "wide")
    (Presets.currentSettings App.initialState).

Definition two_presets : App.State :=
  App.setPresets [legacy_preset; full_preset] one_card.

(** A preset stored with a preview scale of 0. *)
Definition zero_scale_preset : App.Preset.t :=
  App.Preset.mk (JS.lit "p0") (JS.lit "zero")
    (App.Settings.mk App.defaultFontSize App.defaultOffsets
       App.defaultFontFamilies None None 21 (Some 0%Q) None None None).

(** *** File names *)

(** A code unit the stored file names are made of: an ASCII letter or
    digit, the underscore, the point, or U+4E00..U+9FA5. *)
Definition safe_char (c : Z) : Prop :=
  0x61 <= c <= 0x7A \/ 0x41 <= c <= 0x5A \/ 0x30 <= c <= 0x39
  \/ c = 0x5F \/ c = 0x2E \/ 0x4e00 <= c <= 0x9fa5.

(** A code unit an extension is written with, in lower case. *)
Definition extension_char (c : Z) : Prop :=
  0x61 <= c <= 0x7A \/ 0x30 <= c <= 0x39 \/ c = 0x2E.

(** A plain file name: not empty, not [.] or [..], and without a slash
    or a NUL. *)
Definition simple_name (s : JS.jsstring) : Prop :=
  s <> [] /\ s <> [0x2E] /\ s <> [0x2E; 0x2E] /\ (0x2F ∉ s) /\ (0 ∉ s).

(** What the sanitizer does to one code unit. *)
Definition sanitize_char (c : Z) : Z :=
  if JS.class_matches Server.unsafe_char c then 0x5F else c.

(** Two uploads whose names differ only in an unsafe character. *)
Definition spaced_font : Server.File.t :=
  Server.File.mk (JS.lit "my font.ttf") [1; 2].

Definition underscored_font : Server.File.t :=
  Server.File.mk (JS.lit "my_font.ttf") [3].

(** Two font files with the same name before the point. *)
Definition song_ttf : Server.File.t := Server.File.mk (JS.lit "Song.ttf") [1].

Definition song_otf : Server.File.t := Server.File.mk (JS.lit "Song.otf") [2].

(** ** Theorems *)

Section RegexFacts.
Import JS.

Lemma in_range_spec lo hi c : in_range lo hi c = true <-> lo <= c <= hi.
Proof. unfold in_range. rewrite andb_true_iff, !Z.leb_le. tauto. Qed.

Lemma ideograph_class c :
  class_matches (CharClass false [(0x4e00, 0x9fa5)]) c = true <-> ideograph c.
Proof.
  unfold class_matches, ideograph; simpl.
  rewrite orb_false_r. apply in_range_spec.
Qed.

(** An anchored pattern can only match at index 0. *)
Lemma test_anchored p s :
  test (AssertBegin :: p) s = match_terms p 0 s.
Proof.
  unfold test. cbn [seq existsb]. rewrite drop_0.
  cbn [match_terms Nat.eqb andb].
  replace (existsb _ (seq 1 (length s))) with false; [apply orb_false_r|].
  symmetry. apply not_true_is_false. intros H.
  apply existsb_exists in H as (i & Hi & Hm).
  apply in_seq in Hi. cbn [match_terms] in Hm.
  destruct i; [lia | discriminate].
Qed.

Lemma test_two_ideographs s :
  test App.two_ideographs s = true
  <-> exists a b, s = [a; b] /\ ideograph a /\ ideograph b.
Proof.
  unfold App.two_ideographs. rewrite test_anchored.
  cbn [match_terms match_repeat]. split.
  - destruct s as [|a [|b r]]; try discriminate.
    + destruct (class_matches _ a); discriminate.
    + destruct (class_matches _ a) eqn:Ha; [|discriminate].
      destruct (class_matches _ b) eqn:Hb; [|discriminate].
      destruct r; [|discriminate]. intros _.
      exists a, b. rewrite <- !ideograph_class. auto.
  - intros (a & b & -> & Ha & Hb).
    apply ideograph_class in Ha, Hb. now rewrite Ha, Hb.
Qed.

End RegexFacts.

Lemma widening_fires (s : JS.jsstring) (t : Q) :
  exactly_two_ideographs s ->
  App.chineseName_tracking true s t = (1 + 2 * t)%Q.
Proof.
  unfold App.chineseName_tracking, exactly_two_ideographs. cbn [andb].
  intros H. apply test_two_ideographs in H. now rewrite H.
Qed.

Lemma widening_silent (s : JS.jsstring) (t : Q) :
  ~ exactly_two_ideographs s ->
  App.chineseName_tracking true s t = t.
Proof.
  unfold App.chineseName_tracking, exactly_two_ideographs. cbn [andb].
  intros H. destruct (JS.test _ _) eqn:E; [|reflexivity].
  apply test_two_ideographs in E. tauto.
Qed.

(** C2. With widening enabled, a [chineseName] whose trimmed text is
    exactly two ideographs of the range U+4E00..U+9FA5 gets the tracking
    [1 + 2 * t]; every other string, the empty one and two ideographs
    next to punctuation included, keeps the base tracking [t]. *)
Theorem two_char_widening_tracking (s : JS.jsstring) (t : Q) :
  (exactly_two_ideographs s ->
     App.chineseName_tracking true s t = (1 + 2 * t)%Q)
  /\ (~ exactly_two_ideographs s ->
     App.chineseName_tracking true s t = t).
Proof. split; [apply widening_fires | apply widening_silent]. Qed.

Lemma two_char_widening_tracking_witness :
  App.chineseName_tracking true [0x20; 0x5f20; 0x4e09; 0x0a] (1 # 10)
    = (1 + 2 * (1 # 10))%Q
  /\ App.chineseName_tracking true [0x5f20; 0x4e09; 0x2c] (1 # 10)
    = (1 # 10)%Q
  /\ App.chineseName_tracking true [] (1 # 10) = (1 # 10)%Q.
Proof.
  split; [|split].
  - apply (proj1 (two_char_widening_tracking _ _)).
    exists 0x5f20, 0x4e09. unfold ideograph. vm_compute.
    repeat split; discriminate.
  - apply (proj2 (two_char_widening_tracking _ _)).
    intros (a & b & H & _). vm_compute in H. discriminate.
  - apply (proj2 (two_char_widening_tracking _ _)).
    intros (a & b & H & _). vm_compute in H. discriminate.
Defined.

Section RenderFacts.
Import App.

(** Every block of the container is the wrapper of a card of the list. *)
Lemma render_children st c w :
  render st = Some c -> w ∈ PrintContainer.children c ->
  PrintContainer.className c
    = cn [Some "print-container"%string;
          and_class (printRotate st) "print-rotate-mode"]
  /\ exists i card, cards st !! i = Some card /\ w = wrapper st i card.
Proof.
  unfold render. destruct (cards st) as [|c0 cs] eqn:E; [discriminate|].
  rewrite <- E. intros Hc Hw. injection Hc as <-.
  split; [reflexivity|].
  apply elem_of_lookup_imap in Hw as (i & card & -> & Hi). eauto.
Qed.

(** The pages are the cards, each laid out on its own. *)
Lemma pages_map st : pages st = map (printPage st) (cards st).
Proof.
  unfold pages, render. destruct (cards st) as [|c0 cs] eqn:E; [reflexivity|].
  cbn [PrintContainer.children]. rewrite <- E.
  change (map Wrapper.page ?l) with (Wrapper.page <$> l).
  rewrite fmap_imap.
  change (fun n => Wrapper.page ∘ wrapper st n) with (fun _ : nat => printPage st).
  apply (imap_const (printPage st)).
Qed.

End RenderFacts.

(** C1 (as amended). In print, the card container of every page is scaled
    by exactly 0.83 when [printRotate] is off and by 1 when it is on; two
    renderings with the same flag use the same scale, whatever their
    records. *)
Theorem fit_scale_by_rotate_flag
    (st st' : App.State) (c c' : App.PrintContainer.t) (w w' : App.Wrapper.t) :
  App.render st = Some c -> w ∈ App.PrintContainer.children c ->
  App.render st' = Some c' -> w' ∈ App.PrintContainer.children c' ->
  App.card_container_scale Css.Print c w
    = (if App.printRotate st then 1 else 83 # 100)%Q
  /\ (App.printRotate st = App.printRotate st' ->
      App.card_container_scale Css.Print c w
        = App.card_container_scale Css.Print c' w').
Proof.
  intros Hc Hw Hc' Hw'.
  destruct (render_children _ _ _ Hc Hw) as (Hn & i & card & _ & ->).
  destruct (render_children _ _ _ Hc' Hw') as (Hn' & i' & card' & _ & ->).
  unfold App.card_container_scale. rewrite Hn, Hn'.
  split.
  - destruct (App.printRotate st); reflexivity.
  - intros <-. reflexivity.
Qed.

Lemma fit_scale_by_rotate_flag_witness :
  App.card_container_scale Css.Print
    (App.PrintContainer.mk ["print-container"%string]
       [App.wrapper one_card_unrotated 0 zhang_san])
    (App.wrapper one_card_unrotated 0 zhang_san) = (83 # 100)%Q.
Proof.
  refine (proj1 (fit_scale_by_rotate_flag one_card_unrotated one_card_unrotated
            _ _ _ _ _ _ _ _)); first [reflexivity | apply list_elem_of_here].
Defined.

(** C1, as stated, fails: with [printRotate] off the print scale is not
    297/357. *)
Lemma fit_scale_is_not_page_ratio :
  App.printRotate one_card_unrotated = false
  /\ ~ (forall c w,
          App.render one_card_unrotated = Some c ->
          w ∈ App.PrintContainer.children c ->
          (App.card_container_scale Css.Print c w
             == PAGE_WIDTH_MM / NATIVE_CONTENT_WIDTH_MM)%Q).
Proof.
  split; [reflexivity|]. intros H.
  specialize (H _ (App.wrapper one_card_unrotated 0 zhang_san) eq_refl).
  specialize (H (list_elem_of_here _ _)).
  vm_compute in H. discriminate.
Qed.

(** On every line [marginRight] splices the number that [letterSpacing]
    splices. While that number is not negative the margin is its
    negative, in em; once it is negative the margin text is no length
    and no margin is applied. *)
Lemma margin_follows_tracking
    (st : App.State) (card : App.CardData.t) (f : App.field) :
  exists v,
    App.Line.letterSpacing (App.line f st card) = Css.Em v
    /\ App.Line.marginRight (App.line f st card) = Css.MinusEm v
    /\ Css.em_length (App.Line.letterSpacing (App.line f st card)) = Some v
    /\ Css.em_length (App.Line.marginRight (App.line f st card))
       = (if Qle_bool 0 v then Some (- v)%Q else None).
Proof. destruct f; eexists; repeat split; reflexivity. Qed.

(** C4 fails on the code. With a tracking of -0.05 on the [englishName]
    line the letter spacing is -0.05em, but the margin text is [-]
    followed by [-0.05em]: it is no length, so no margin is applied,
    where the claim has a margin that compensates the tracking. *)
Theorem negative_tracking_loses_margin :
  App.letterSpacings negative_tracking App.EnglishName = (- (5 # 100))%Q
  /\ Css.em_length
       (App.Line.letterSpacing
          (App.line App.EnglishName negative_tracking zhang_san))
     = Some (- (5 # 100))%Q
  /\ App.Line.marginRight (App.line App.EnglishName negative_tracking zhang_san)
     = Css.MinusEm (- (5 # 100))
  /\ Css.em_length
       (App.Line.marginRight
          (App.line App.EnglishName negative_tracking zhang_san))
     = None.
Proof.
  destruct (margin_follows_tracking negative_tracking zhang_san App.EnglishName)
    as (v & Hl & Hm & Hel & Hem).
  assert (Hv : v = (- (5 # 100))%Q) by (now injection Hl as <-).
  subst v. split; [reflexivity|]. split; [exact Hel|].
  split; [exact Hm | exact Hem].
Qed.

(** C8. Every line is shifted down by its configured offset plus the
    baseline constant of its field: 25, 12, -5 and -10 pt. *)
Theorem field_vertical_placement
    (st : App.State) (card : App.CardData.t) (f : App.field) :
  exists v,
    App.Line.transform (App.line f st card) = Css.TranslateYPt v
    /\ (v == App.offsets st f + FIELD_BASELINE_PT f)%Q.
Proof.
  destruct f; eexists; (split; [reflexivity|]);
    unfold FIELD_BASELINE_PT; ring.
Qed.

(** C7. The bottom margin of every preview block evaluates to
    [-420mm * (1 - previewScale)]: -105mm at 0.75 and 0 at 1. It is the
    same for every record and position. *)
Theorem preview_margin_compensation
    (st : App.State) (index : nat) (card : App.CardData.t) :
  exists c v,
    App.Wrapper.marginBottom (App.wrapper st index card) = Css.Calc c
    /\ Css.eval c = Some (Css.VMm v)
    /\ (v == - PAGE_HEIGHT_MM * (1 - App.previewScale st))%Q
    /\ ((App.previewScale st == 75 # 100)%Q -> (v == -105)%Q)
    /\ ((App.previewScale st == 1)%Q -> (v == 0)%Q)
    /\ (forall index' card',
          App.Wrapper.marginBottom (App.wrapper st index' card') = Css.Calc c).
Proof.
  eexists; eexists. split; [reflexivity|]. split; [reflexivity|].
  unfold PAGE_HEIGHT_MM, Css.mm_per_px.
  split; [ring|]. split; [|split].
  - intros ->. reflexivity.
  - intros ->. reflexivity.
  - reflexivity.
Qed.

Lemma preview_margin_compensation_witness :
  exists c v,
    App.Wrapper.marginBottom (App.wrapper one_card 0 zhang_san) = Css.Calc c
    /\ Css.eval c = Some (Css.VMm v)
    /\ (v == -105)%Q
    /\ exists c1 v1,
         App.Wrapper.marginBottom
           (App.wrapper (App.setPreviewScale 1 one_card) 0 zhang_san)
           = Css.Calc c1
         /\ Css.eval c1 = Some (Css.VMm v1) /\ (v1 == 0)%Q.
Proof.
  destruct (preview_margin_compensation one_card 0 zhang_san)
    as (c & v & Hc & He & _ & H75 & _).
  exists c, v. split; [exact Hc|]. split; [exact He|].
  split; [apply H75; reflexivity|].
  destruct (preview_margin_compensation
              (App.setPreviewScale 1 one_card) 0 zhang_san)
    as (c1 & v1 & Hc1 & He1 & _ & _ & H1 & _).
  exists c1, v1. split; [exact Hc1|]. split; [exact He1|].
  apply H1; reflexivity.
Defined.

(** C6. With crop marks on there are four marks, one per corner of the
    card container, and the corner of each mark lies at the crop offset
    from the corner of the container, taken in the direction away from
    the centre: by [(-x, -y)] at the top left, whose insets are
    [top: -y mm] and [left: -x mm]. *)
Theorem crop_marks_offset_outwards
    (st : App.State) (W H w h : Q) (k : App.corner) :
  App.showCropMarks st = true ->
  length (App.cropMarks st) = 4%nat
  /\ exists m,
      m ∈ App.cropMarks st
      /\ App.corner_class k ∈ App.CropMark.className m
      /\ (fst (App.mark_displacement W H w h k m)
            == fst (outward k) * App.Offset.x (App.cropOffset st))%Q
      /\ (snd (App.mark_displacement W H w h k m)
            == snd (outward k) * App.Offset.y (App.cropOffset st))%Q
      /\ (k = App.TopLeft ->
          App.CropMark.top m
            = Some (Css.Mm (- App.Offset.y (App.cropOffset st)))
          /\ App.CropMark.left m
            = Some (Css.Mm (- App.Offset.x (App.cropOffset st)))).
Proof.
  intros Hs. unfold App.cropMarks. rewrite Hs.
  split; [reflexivity|].
  destruct k;
    [ eexists; split; [apply list_elem_of_here|]
    | eexists; split; [do 1 apply list_elem_of_further; apply list_elem_of_here|]
    | eexists; split; [do 2 apply list_elem_of_further; apply list_elem_of_here|]
    | eexists; split; [do 3 apply list_elem_of_further; apply list_elem_of_here|] ];
    (split; [cbn; set_solver|]);
    (split; [cbn; ring|]); (split; [cbn; ring|]);
    intros Hk; try discriminate Hk; split; reflexivity.
Qed.

Lemma crop_marks_offset_outwards_witness :
  exists m,
    m ∈ App.cropMarks
          (App.onChangeCropOffsetY (JS.lit "2")
             (App.onChangeCropOffsetX (JS.lit "3") one_card))
    /\ (fst (App.mark_displacement 357 200 10 10 App.TopLeft m) == -3)%Q
    /\ (snd (App.mark_displacement 357 200 10 10 App.TopLeft m) == -2)%Q.
Proof.
  destruct (crop_marks_offset_outwards
              (App.onChangeCropOffsetY (JS.lit "2")
                 (App.onChangeCropOffsetX (JS.lit "3") one_card))
              357 200 10 10 App.TopLeft eq_refl)
    as (_ & m & Hm & _ & Hx & Hy & _).
  exists m. split; [exact Hm|]. split.
  - rewrite Hx. reflexivity.
  - rewrite Hy. reflexivity.
Defined.

(** C9. The page at each position of the output is the page of the card
    at that position, laid out from the card and the settings alone;
    reordering the cards reorders the pages the same way and changes no
    page. *)
Theorem pages_follow_record_order
    (st : App.State) (cs cs' : list App.CardData.t) :
  cs ≡ₚ cs' ->
  (forall i,
      App.pages (App.setCards cs st) !! i
        = App.printPage (App.setCards [] st) <$> cs !! i)
  /\ (forall i,
      App.pages (App.setCards cs' st) !! i
        = App.printPage (App.setCards [] st) <$> cs' !! i)
  /\ App.pages (App.setCards cs st) ≡ₚ App.pages (App.setCards cs' st).
Proof.
  intros Hp. rewrite !pages_map. cbn [App.cards App.setCards].
  change (App.printPage (App.setCards cs st))
    with (App.printPage (App.setCards [] st)).
  change (App.printPage (App.setCards cs' st))
    with (App.printPage (App.setCards [] st)).
  split; [|split].
  - intros i. apply list_lookup_fmap.
  - intros i. apply list_lookup_fmap.
  - apply (fmap_Permutation (App.printPage (App.setCards [] st))), Hp.
Qed.

Lemma pages_follow_record_order_witness :
  App.pages (App.setCards [li_xiaoming; zhang_san] one_card) !! 0%nat
    = Some (App.printPage (App.setCards [] one_card) li_xiaoming)
  /\ App.pages (App.setCards [li_xiaoming; zhang_san] one_card) !! 1%nat
    = Some (App.printPage (App.setCards [] one_card) zhang_san)
  /\ App.pages (App.setCards [zhang_san; li_xiaoming] one_card)
     ≡ₚ App.pages (App.setCards [li_xiaoming; zhang_san] one_card).
Proof.
  destruct (pages_follow_record_order one_card
              [zhang_san; li_xiaoming] [li_xiaoming; zhang_san]
              (Permutation_swap _ _ _))
    as (_ & H & Hp).
  split; [apply (H 0%nat)|]. split; [apply (H 1%nat)|]. exact Hp.
Defined.

Lemma find_preset (ps : list App.Preset.t) (presetId : JS.jsstring) :
  (exists p, p ∈ ps /\ App.Preset.id p = presetId) ->
  exists preset,
    List.find (fun p => bool_decide (App.Preset.id p = presetId)) ps
      = Some preset
    /\ preset ∈ ps /\ App.Preset.id preset = presetId.
Proof.
  intros (p & Hin & Hid).
  destruct (List.find _ ps) as [preset|] eqn:E.
  - apply find_some in E as [HIn Hb].
    exists preset. split; [reflexivity|]. split.
    + now apply list_elem_of_In.
    + now apply bool_decide_eq_true in Hb.
  - apply list_elem_of_In in Hin.
    pose proof (find_none _ _ E _ Hin) as Hb. cbn beta in Hb.
    apply bool_decide_eq_false in Hb. contradiction.
Qed.

(** C5. Loading a stored preset always yields a state; whatever
    [showFoldLine], [showCropMarks] or [cropOffset] its settings lack is
    set to [false], [true] and [{x: 0, y: 0}], the values of the initial
    state, and the same holds for the other guarded settings. *)
Theorem load_preset_fills_defaults
    (st : App.State) (presetId : JS.jsstring) :
  (exists p, p ∈ App.presets st /\ App.Preset.id p = presetId) ->
  exists preset,
    preset ∈ App.presets st /\ App.Preset.id preset = presetId
    /\ let s := App.Preset.settings preset in
       let st' := App.loadPreset presetId st in
       App.currentPresetId st' = presetId
       /\ App.showFoldLine st' = default false (App.Settings.showFoldLine s)
       /\ App.showCropMarks st' = default true (App.Settings.showCropMarks s)
       /\ App.cropOffset st'
            = default (App.Offset.mk 0 0) (App.Settings.cropOffset s)
       /\ App.enableTwoCharWidening st'
            = default true (App.Settings.enableTwoCharWidening s)
       /\ App.letterSpacings st'
            = default App.defaultLetterSpacings (App.Settings.letterSpacings s)
       /\ (App.Settings.previewScale s = None ->
           App.previewScale st' = (75 # 100)%Q)
       /\ (App.Settings.showFoldLine s = None ->
           App.showFoldLine st' = false
           /\ App.showFoldLine st' = App.showFoldLine App.initialState)
       /\ (App.Settings.showCropMarks s = None ->
           App.showCropMarks st' = true
           /\ App.showCropMarks st' = App.showCropMarks App.initialState)
       /\ (App.Settings.cropOffset s = None ->
           App.cropOffset st' = App.Offset.mk 0 0
           /\ App.cropOffset st' = App.cropOffset App.initialState).
Proof.
  intros H. destruct (find_preset _ _ H) as (preset & Hf & Hin & Hid).
  exists preset. split; [exact Hin|]. split; [exact Hid|].
  cbv zeta. unfold App.loadPreset. rewrite Hf.
  cbn [App.currentPresetId App.showFoldLine App.showCropMarks App.cropOffset
       App.enableTwoCharWidening App.letterSpacings App.previewScale].
  unfold App.nullish.
  repeat (split; [reflexivity|]).
  split; [intros ->; reflexivity|].
  split; [intros ->; split; reflexivity|].
  split; intros ->; split; reflexivity.
Qed.

Lemma load_preset_fills_defaults_witness :
  exists preset,
    preset ∈ [legacy_preset]
    /\ App.showFoldLine
         (App.loadPreset (JS.lit "p1") (App.setPresets [legacy_preset] one_card))
       = default false (App.Settings.showFoldLine (App.Preset.settings preset)).
Proof.
  destruct (load_preset_fills_defaults
              (App.setPresets [legacy_preset] one_card) (JS.lit "p1"))
    as (preset & Hin & _ & _ & Hf & _).
  - exists legacy_preset. split; [apply list_elem_of_here | reflexivity].
  - exists preset. split; [exact Hin | exact Hf].
Defined.

Section ParseIntFacts.
Import JS Number.

Lemma plain_cases c :
  plain c ->
  c = 46 \/ c = 48 \/ c = 49 \/ c = 50 \/ c = 51 \/ c = 52 \/ c = 53
  \/ c = 54 \/ c = 55 \/ c = 56 \/ c = 57.
Proof. unfold plain. lia. Qed.

Lemma plain_not_space c : plain c -> is_str_white_space c = false.
Proof. intros H. apply plain_cases in H. intuition (subst; reflexivity). Qed.

Lemma plain_not_sign c : plain c -> (c =? 0x2D) = false /\ (c =? 0x2B) = false.
Proof. unfold plain. intros H. split; apply Z.eqb_neq; lia. Qed.

Lemma plain_not_x c : plain c -> (c =? 0x78) || (c =? 0x58) = false.
Proof.
  unfold plain. intros H. apply orb_false_iff. split; apply Z.eqb_neq; lia.
Qed.

Lemma trimStart_plain body : Forall plain body -> trimStart body = body.
Proof.
  intros [|c r Hc _]; [reflexivity|]. cbn [trimStart].
  now rewrite (plain_not_space _ Hc).
Qed.

Lemma strip_sign_plain body : Forall plain body -> strip_sign body = (1, body).
Proof.
  intros [|c r Hc _]; [reflexivity|]. cbn [strip_sign].
  destruct (plain_not_sign _ Hc) as [-> ->]. reflexivity.
Qed.

Lemma strip_prefix_plain body :
  Forall plain body -> strip_prefix body = (10, body).
Proof.
  intros [|c0 r Hc0 [|c1 r' Hc1 _]]; try reflexivity. cbn [strip_prefix].
  rewrite (plain_not_x _ Hc1), andb_false_r. reflexivity.
Qed.

Lemma digit_chars_plain ds : digits_ok ds -> Forall plain (digit_chars ds).
Proof.
  unfold digits_ok, digit_chars. induction 1 as [|d ds Hd _ IH].
  - constructor.
  - constructor; [unfold plain; lia | exact IH].
Qed.

Lemma digit_value_char d :
  0 <= d <= 9 -> digit_value (0x30 + d) = Some d.
Proof.
  intros H. unfold digit_value.
  replace (in_range 48 57 (48 + d)) with true.
  - f_equal. lia.
  - symmetry. apply in_range_spec. lia.
Qed.

(** Reading stops at the first code unit that is no digit. *)
Lemma take_digits_chars ds tail :
  digits_ok ds ->
  (tail = [] \/ exists r, tail = 0x2E :: r) ->
  take_digits 10 (digit_chars ds ++ tail) = ds.
Proof.
  intros Hds Ht. induction Hds as [|d ds Hd _ IH].
  - destruct Ht as [-> | (r & ->)]; reflexivity.
  - cbn [digit_chars map app take_digits].
    rewrite (digit_value_char _ Hd).
    replace (d <? 10) with true by (symmetry; apply Z.ltb_lt; lia).
    f_equal. exact IH.
Qed.

Lemma fold_digits ds acc :
  fold_left (fun a d => a * 10 + d) ds acc
  = acc * 10 ^ Z.of_nat (length ds) + decimal_value ds.
Proof.
  revert acc. induction ds as [|d ds IH]; intros acc.
  - cbn. lia.
  - cbn [fold_left decimal_value length]. rewrite IH.
    rewrite Nat2Z.inj_succ, Z.pow_succ_r by lia. ring.
Qed.

Lemma digits_value_decimal ds : digits_value 10 ds = decimal_value ds.
Proof. unfold digits_value. rewrite fold_digits. lia. Qed.

Lemma decimal_value_bounds ds :
  digits_ok ds -> 0 <= decimal_value ds < 10 ^ Z.of_nat (length ds).
Proof.
  induction 1 as [|d ds Hd _ IH].
  - cbn. lia.
  - cbn [decimal_value length]. rewrite Nat2Z.inj_succ, Z.pow_succ_r by lia.
    nia.
Qed.

(** What the handlers store for an entry in decimal notation. *)
Lemma parseInt_entry e :
  well_formed e ->
  or_else (parseInt (entry_text e)) 0
  = inject_Z ((if negative e then -1 else 1) * decimal_value (int_digits e)).
Proof.
  intros [Hi Hf]. unfold entry_text, parseInt.
  set (tail := match frac_digits e with
               | Some fs => 0x2E :: digit_chars fs
               | None => []
               end).
  assert (Htail : tail = [] \/ exists r, tail = 0x2E :: r).
  { subst tail. destruct (frac_digits e); eauto. }
  assert (Hbody : Forall plain (digit_chars (int_digits e) ++ tail)).
  { apply Forall_app. split; [now apply digit_chars_plain|].
    subst tail. destruct (frac_digits e) as [fs|]; [|constructor].
    constructor; [now left | now apply digit_chars_plain]. }
  assert (Hrest :
    forall sign, sign = 1 \/ sign = -1 ->
    or_else
      (let '(R, S2) := strip_prefix (digit_chars (int_digits e) ++ tail) in
       match take_digits R S2 with
       | [] => NaN
       | ds => Num (inject_Z (sign * digits_value R ds))
       end) 0
    = inject_Z (sign * decimal_value (int_digits e))).
  { intros sign Hsign. rewrite (strip_prefix_plain _ Hbody).
    rewrite (take_digits_chars _ _ Hi Htail).
    destruct (int_digits e) as [|d ds] eqn:E.
    - cbn. now rewrite Z.mul_0_r.
    - rewrite digits_value_decimal. cbn [or_else].
      destruct (Qeq_bool _ 0) eqn:Hz; [|reflexivity].
      apply Qeq_bool_iff in Hz. change 0%Q with (inject_Z 0) in Hz.
      apply -> inject_Z_injective in Hz. now rewrite Hz. }
  destruct (negative e).
  - cbn [app trimStart].
    replace (is_str_white_space 45) with false by reflexivity.
    cbn [strip_sign]. replace (45 =? 45) with true by reflexivity.
    apply Hrest. now right.
  - cbn [app]. rewrite (trimStart_plain _ Hbody), (strip_sign_plain _ Hbody).
    apply Hrest. now left.
Qed.

End ParseIntFacts.

Section TruncateFacts.
Local Open Scope Q_scope.

Lemma Qfloor_between (q : Q) (z : Z) :
  inject_Z z <= q -> q < inject_Z (z + 1) -> Qfloor q = z.
Proof.
  intros Hl Hu. apply Z.le_antisymm.
  - apply Z.lt_succ_r. unfold Z.succ. rewrite Zlt_Qlt.
    eapply Qle_lt_trans; [apply Qfloor_le | exact Hu].
  - rewrite <- (Qfloor_Z z) at 1. apply Qfloor_resp_le, Hl.
Qed.

Lemma fraction_bounds (F P : Z) :
  (0 <= F < P)%Z -> 0 <= inject_Z F / inject_Z P /\ inject_Z F / inject_Z P < 1.
Proof.
  intros [H0 H1].
  assert (HP : 0 < inject_Z P).
  { change 0 with (inject_Z 0). rewrite <- Zlt_Qlt. lia. }
  split.
  - apply Qle_shift_div_l; [exact HP|]. rewrite Qmult_0_l.
    change 0 with (inject_Z 0). rewrite <- Zle_Qle. exact H0.
  - apply Qlt_shift_div_r; [exact HP|]. rewrite Qmult_1_l.
    rewrite <- Zlt_Qlt. exact H1.
Qed.

Lemma truncate_parts (I : Z) (fr : Q) (neg : bool) :
  (0 <= I)%Z -> 0 <= fr -> fr < 1 ->
  truncate (if neg then - (inject_Z I + fr) else inject_Z I + fr)
  = ((if neg then -1 else 1) * I)%Z.
Proof.
  intros HI Hf0 Hf1.
  assert (HIq : 0 <= inject_Z I).
  { change 0 with (inject_Z 0). now rewrite <- Zle_Qle. }
  assert (Hfloor : Qfloor (inject_Z I + fr) = I).
  { apply Qfloor_between; [lra|]. rewrite inject_Z_plus.
    change (inject_Z 1) with 1. lra. }
  unfold truncate. destruct neg.
  - destruct (Qle_bool 0 (- (inject_Z I + fr))) eqn:Hs.
    + apply Qle_bool_iff in Hs.
      assert (HI0 : I = 0%Z).
      { apply Z.le_antisymm; [|exact HI].
        rewrite Zle_Qle. change (inject_Z 0) with 0. lra. }
      subst I. change (-1 * 0)%Z with 0%Z.
      change (inject_Z 0) with 0 in *.
      apply Qfloor_between; [change (inject_Z 0) with 0
                            | change (inject_Z (0 + 1)) with 1]; lra.
    + unfold Qceiling. rewrite Qopp_involutive, Hfloor. lia.
  - replace (Qle_bool 0 (inject_Z I + fr)) with true.
    + rewrite Hfloor. lia.
    + symmetry. apply Qle_bool_iff. lra.
Qed.

(** The integer digits are the entry rounded towards zero. *)
Lemma truncate_entry e :
  well_formed e ->
  truncate (entry_value e)
  = ((if negative e then -1 else 1) * decimal_value (int_digits e))%Z.
Proof.
  intros [Hi Hf]. unfold entry_value. cbv zeta.
  pose proof (decimal_value_bounds _ Hi) as [HI _].
  pose proof (fraction_bounds _ _ (decimal_value_bounds _ Hf)) as [Hf0 Hf1].
  now apply truncate_parts.
Qed.

End TruncateFacts.

Lemma calibrated_integers (st : App.State) :
  calibrated st ->
  is_integer (App.Offset.x (App.cropOffset st))
  /\ is_integer (App.Offset.y (App.cropOffset st)).
Proof.
  assert (Hint : forall value, is_integer (Number.or_else (Number.parseInt value) 0)).
  { intros value. unfold Number.parseInt.
    destruct (Number.strip_sign _) as [sign S1].
    destruct (Number.strip_prefix _) as [R S2].
    destruct (Number.take_digits R S2) as [|d ds].
    - exists 0. reflexivity.
    - cbn [Number.or_else]. destruct (Qeq_bool _ 0).
      + exists 0. reflexivity.
      + eexists. reflexivity. }
  induction 1 as [st H0 | value st _ [IHx IHy] | value st _ [IHx IHy]
                 | st st' _ IH Heq].
  - rewrite H0. split; exists 0; reflexivity.
  - split; [apply Hint | exact IHy].
  - split; [exact IHx | apply Hint].
  - rewrite Heq. exact IH.
Qed.

(** C10 (as amended). A crop offset reached through the two calibration
    inputs has whole-number components. An entry in plain decimal
    notation is stored rounded towards zero, so 0.5 is stored as 0. *)
Theorem crop_offset_inputs_store_integers (st : App.State) :
  calibrated st ->
  (is_integer (App.Offset.x (App.cropOffset st))
   /\ is_integer (App.Offset.y (App.cropOffset st)))
  /\ (forall e, well_formed e ->
        App.Offset.x (App.cropOffset (App.onChangeCropOffsetX (entry_text e) st))
          = inject_Z (truncate (entry_value e))
        /\ App.Offset.y (App.cropOffset (App.onChangeCropOffsetY (entry_text e) st))
          = inject_Z (truncate (entry_value e)))
  /\ App.Offset.x (App.cropOffset (App.onChangeCropOffsetX (JS.lit "0.5") st))
       = 0%Q
  /\ App.Offset.y (App.cropOffset (App.onChangeCropOffsetY (JS.lit "0.5") st))
       = 0%Q.
Proof.
  intros Hc. split; [now apply calibrated_integers|].
  split; [|split; reflexivity].
  intros e He. cbn [App.onChangeCropOffsetX App.onChangeCropOffsetY
    App.setCropOffset App.cropOffset App.Offset.x App.Offset.y].
  rewrite (truncate_entry _ He), (parseInt_entry _ He). split; reflexivity.
Qed.

Lemma crop_offset_inputs_store_integers_witness :
  is_integer
    (App.Offset.x
       (App.cropOffset (App.onChangeCropOffsetX (JS.lit "2.7") one_card)))
  /\ App.Offset.x
       (App.cropOffset
          (App.onChangeCropOffsetX
             (entry_text (DecimalEntry true [2] (Some [7]))) one_card))
     = inject_Z (truncate (entry_value (DecimalEntry true [2] (Some [7])))).
Proof.
  split.
  - apply (crop_offset_inputs_store_integers
             (App.onChangeCropOffsetX (JS.lit "2.7") one_card)).
    apply calibrated_x, calibrated_start. reflexivity.
  - apply (crop_offset_inputs_store_integers one_card).
    + apply calibrated_start. reflexivity.
    + split; repeat constructor; lia.
Defined.

(** C10, as stated, fails: the entry 5e-1 is the fraction 0.5, whose
    whole part is 0, but the input handler stores 5. *)
Lemma exponent_entry_is_not_truncated :
  scientific_text five_e_minus_one = JS.lit "5e-1"
  /\ (scientific_value five_e_minus_one == 1 # 2)%Q
  /\ truncate (scientific_value five_e_minus_one) = 0
  /\ calibrated one_card
  /\ App.Offset.x
       (App.cropOffset
          (App.onChangeCropOffsetX (scientific_text five_e_minus_one) one_card))
     = inject_Z 5
  /\ ~ (App.Offset.x
          (App.cropOffset
             (App.onChangeCropOffsetX (scientific_text five_e_minus_one)
                one_card))
        = inject_Z (truncate (scientific_value five_e_minus_one))).
Proof.
  split; [reflexivity|]. split; [reflexivity|]. split; [reflexivity|].
  split; [apply calibrated_start; reflexivity|].
  split; [reflexivity|]. vm_compute. discriminate.
Qed.

(** The upload route writes whatever file part it is sent and answers
    with status 200. *)
Lemma post_fonts_stores (file : Server.File.t) (dir : gmap (list Z) (list Z)) :
  fst (Server.post_fonts (Some file) dir) !! Server.filename file
    = Some (Server.File.content file)
  /\ Server.status (snd (Server.post_fonts (Some file) dir)) = 200.
Proof.
  unfold Server.post_fonts, Server.upload_single. cbn [fst snd Server.status].
  split; [apply lookup_insert_eq | reflexivity].
Qed.

(** C3 fails on the code: [notes.txt] has none of the accepted
    extensions, yet the upload is answered with success and the file is
    in the font directory afterwards, where the listing never shows it. *)
Theorem font_upload_ignores_extension :
  accepted_extension (Server.File.originalname notes_txt) = false
  /\ snd (Server.post_fonts (Some notes_txt) ∅)
     = Server.mkResponse 200
         (Server.UploadBody true
            (Server.CustomFont.mk (JS.lit "notes") (JS.lit "notes.txt")
               (JS.lit "/api/fonts/notes.txt")))
  /\ fst (Server.post_fonts (Some notes_txt) ∅) !! JS.lit "notes.txt"
     = Some (Server.File.content notes_txt)
  /\ Server.get_fonts (fst (Server.post_fonts (Some notes_txt) ∅))
     = Server.mkResponse 200 (Server.ListBody []).
Proof.
  split; [reflexivity|]. split; [reflexivity|]. split.
  - apply (post_fonts_stores notes_txt ∅).
  - unfold Server.get_fonts, Server.post_fonts, Server.upload_single.
    cbn [fst]. rewrite dom_insert_L, dom_empty_L, union_empty_r_L.
    rewrite elements_singleton. reflexivity.
Qed.

Section TrimFacts.
Import JS.

Lemma trimStart_blank ws : Forall blank ws -> trimStart ws = [].
Proof. induction 1 as [|c ws Hc _ IH]; [reflexivity|]. cbn. now rewrite Hc. Qed.

Lemma trimStart_app_blank ws s :
  Forall blank ws -> trimStart (ws ++ s) = trimStart s.
Proof.
  induction 1 as [|c ws Hc _ IH]; [reflexivity|]. cbn. now rewrite Hc.
Qed.

Lemma trimEnd_app_blank s ws :
  Forall blank ws -> trimEnd (s ++ ws) = trimEnd s.
Proof.
  intros H. unfold trimEnd. rewrite rev_app_distr.
  rewrite trimStart_app_blank; [reflexivity|].
  apply Forall_forall. intros c Hc.
  apply list_elem_of_In, in_rev, list_elem_of_In in Hc.
  rewrite Forall_forall in H. now apply H.
Qed.

Lemma trimStart_app_r s ws :
  Forall blank ws ->
  trimStart (s ++ ws) = trimStart s ++ ws
  \/ (trimStart (s ++ ws) = [] /\ trimStart s = []).
Proof.
  intros H. induction s as [|c s IH].
  - right. split; [now apply trimStart_blank | reflexivity].
  - cbn. destruct (is_str_white_space c); [exact IH | now left].
Qed.

Lemma trim_padding ws s ws' :
  Forall blank ws -> Forall blank ws' -> trim (ws ++ s ++ ws') = trim s.
Proof.
  intros H H'. unfold trim. rewrite (trimStart_app_blank _ _ H).
  destruct (trimStart_app_r s ws' H') as [-> | [-> ->]]; [|reflexivity].
  now apply trimEnd_app_blank.
Qed.

End TrimFacts.

(** X1. White space before and after the name never changes the tracking
    of the [chineseName] line. *)
Theorem tracking_ignores_padding
    (widening : bool) (ws s ws' : JS.jsstring) (t : Q) :
  Forall blank ws -> Forall blank ws' ->
  App.chineseName_tracking widening (ws ++ s ++ ws') t
    = App.chineseName_tracking widening s t.
Proof.
  intros H H'. unfold App.chineseName_tracking.
  now rewrite (trim_padding _ _ _ H H').
Qed.

Lemma tracking_ignores_padding_witness :
  App.chineseName_tracking true
    ([0x3000; 0x20] ++ [0x5f20; 0x4e09] ++ [0x09; 0x0a]) (1 # 10)
  = App.chineseName_tracking true [0x5f20; 0x4e09] (1 # 10).
Proof.
  apply tracking_ignores_padding; repeat constructor.
Defined.

Section ParseIntEdges.
Import JS Number.

Lemma take_digits_stop c rest :
  ~ (0x30 <= c <= 0x39) -> take_digits 10 (c :: rest) = [].
Proof.
  intros Hc. cbn [take_digits]. unfold digit_value.
  destruct (in_range 48 57 c) eqn:E1.
  { apply in_range_spec in E1. contradiction. }
  destruct (in_range 97 122 c) eqn:E2.
  { apply in_range_spec in E2.
    replace (c - 97 + 10 <? 10) with false; [reflexivity|].
    symmetry. apply Z.ltb_ge. lia. }
  destruct (in_range 65 90 c) eqn:E3; [|reflexivity].
  apply in_range_spec in E3.
  replace (c - 65 + 10 <? 10) with false; [reflexivity|].
  symmetry. apply Z.ltb_ge. lia.
Qed.

Lemma take_digits_prefix ds tail :
  digits_ok ds -> starts_without_digit tail ->
  take_digits 10 (digit_chars ds ++ tail) = ds.
Proof.
  intros Hds Ht. induction Hds as [|d ds Hd _ IH].
  - destruct tail as [|c r]; [reflexivity|]. now apply take_digits_stop.
  - cbn [digit_chars map app take_digits].
    rewrite (digit_value_char _ Hd).
    replace (d <? 10) with true by (symmetry; apply Z.ltb_lt; lia).
    f_equal. exact IH.
Qed.

(** What is stored once the sign is gone and the radix is ten. *)
Lemma or_else_digits sign ds :
  sign = 1 \/ sign = -1 ->
  or_else match ds with
          | [] => NaN
          | _ => Num (inject_Z (sign * digits_value 10 ds))
          end 0
  = inject_Z (sign * decimal_value ds).
Proof.
  intros Hs. destruct ds as [|d ds].
  - cbn. now rewrite Z.mul_0_r.
  - rewrite digits_value_decimal. cbn [or_else].
    destruct (Qeq_bool _ 0) eqn:Hz; [|reflexivity].
    apply Qeq_bool_iff in Hz. change 0%Q with (inject_Z 0) in Hz.
    apply -> inject_Z_injective in Hz. now rewrite Hz.
Qed.

Lemma strip_prefix_decimal c0 rest :
  c0 <> 0x30 \/ match rest with
                | [] => True
                | c1 :: _ => c1 <> 0x78 /\ c1 <> 0x58
                end ->
  strip_prefix (c0 :: rest) = (10, c0 :: rest).
Proof.
  intros H. destruct rest as [|c1 r]; [reflexivity|]. cbn [strip_prefix].
  destruct H as [H | [H1 H2]].
  - apply Z.eqb_neq in H. now rewrite H.
  - apply Z.eqb_neq in H1, H2. now rewrite H1, H2, andb_false_r.
Qed.

(** A sign, digits, and then a point or the letter of an exponent: the
    digits are read and the rest is dropped. *)
Lemma parseInt_signed_digits (neg : bool) ds tail :
  digits_ok ds ->
  (forall c r, tail = c :: r -> c = 0x2E \/ c = 0x65 \/ c = 0x45) ->
  or_else (parseInt ((if neg then [0x2D] else []) ++ digit_chars ds ++ tail)) 0
  = inject_Z ((if neg then -1 else 1) * decimal_value ds).
Proof.
  intros Hds Htail.
  assert (Hstart : starts_without_digit tail).
  { destruct tail as [|c r]; [exact I|]. cbn.
    destruct (Htail c r eq_refl) as [-> | [-> | ->]]; lia. }
  assert (Htake : take_digits 10 (digit_chars ds ++ tail) = ds)
    by now apply take_digits_prefix.
  assert (Hhead : match digit_chars ds ++ tail with
                  | [] => True
                  | c :: _ => is_str_white_space c = false
                              /\ (c =? 0x2D) = false /\ (c =? 0x2B) = false
                              /\ ((c =? 0x78) || (c =? 0x58) = false)
                  end).
  { destruct ds as [|d ds'].
    - destruct tail as [|c r]; [exact I|]. cbn [digit_chars map app].
      destruct (Htail c r eq_refl) as [-> | [-> | ->]]; repeat split.
    - cbn [digit_chars map app]. apply Forall_cons in Hds as [Hd _].
      assert (Hp : plain (0x30 + d)) by (unfold plain; lia).
      split; [now apply plain_not_space|].
      destruct (plain_not_sign _ Hp) as [H1 H2].
      split; [exact H1|]. split; [exact H2 | now apply plain_not_x]. }
  assert (Hprefix : strip_prefix (digit_chars ds ++ tail)
                    = (10, digit_chars ds ++ tail)).
  { destruct ds as [|d ds'].
    - destruct tail as [|c r]; [reflexivity|]. cbn [digit_chars map app].
      apply strip_prefix_decimal. left.
      destruct (Htail c r eq_refl) as [-> | [-> | ->]]; lia.
    - cbn [digit_chars map app]. apply strip_prefix_decimal. right.
      apply Forall_cons in Hds as [_ Hds'].
      destruct ds' as [|d2 ds2]; cbn [map app].
      + destruct tail as [|c r]; [exact I|].
        destruct (Htail c r eq_refl) as [-> | [-> | ->]]; lia.
      + apply Forall_cons in Hds' as [Hd2 _]. lia. }
  unfold parseInt. destruct neg.
  - cbn [app trimStart].
    replace (is_str_white_space 45) with false by reflexivity.
    cbn [strip_sign]. replace (45 =? 45) with true by reflexivity.
    rewrite Hprefix, Htake. clear -ds.
    destruct ds as [|d0 ds0];
      [apply (or_else_digits (-1) []) | apply (or_else_digits (-1) (d0 :: ds0))];
      now right.
  - cbn [app]. destruct (digit_chars ds ++ tail) as [|c body] eqn:E.
    + cbn. destruct ds; [reflexivity | discriminate].
    + destruct Hhead as (Hb & Hm & Hp & _). cbn [trimStart]. rewrite Hb.
      cbn [strip_sign]. rewrite Hm, Hp, Hprefix, Htake. clear -ds.
      destruct ds as [|d0 ds0];
        [apply (or_else_digits 1 []) | apply (or_else_digits 1 (d0 :: ds0))];
        now left.
Qed.

(** The part of an entry that follows its integer digits, with an
    exponent behind it, begins with a point or the letter e. *)
Lemma parseInt_scientific e :
  well_formed (mantissa e) ->
  or_else (parseInt (scientific_text e)) 0
  = inject_Z (truncate (entry_value (mantissa e))).
Proof.
  intros Hw. rewrite (truncate_entry _ Hw). destruct Hw as [Hi _].
  unfold scientific_text, entry_text. rewrite <- !app_assoc.
  apply parseInt_signed_digits; [exact Hi|].
  intros c r. destruct (frac_digits (mantissa e)); cbn [app];
    intros [= <- _]; auto.
Qed.

Lemma parseInt_no_digits body :
  starts_without_digit body -> take_digits 10 body = [] /\
  strip_prefix body = (10, body).
Proof.
  destruct body as [|c r]; [now split|]. cbn [starts_without_digit].
  intros Hc. split; [now apply take_digits_stop|].
  apply strip_prefix_decimal. left. lia.
Qed.

Lemma parseInt_without_digits ws body :
  Forall blank ws -> starts_without_digit body ->
  (starts_unsigned body -> or_else (parseInt (ws ++ body)) 0 = 0%Q)
  /\ or_else (parseInt (ws ++ 0x2D :: body)) 0 = 0%Q
  /\ or_else (parseInt (ws ++ 0x2B :: body)) 0 = 0%Q.
Proof.
  intros Hws Hb. destruct (parseInt_no_digits _ Hb) as [Ht Hp].
  unfold parseInt. rewrite !(trimStart_app_blank _ _ Hws).
  split; [|split].
  - intros Hu. destruct body as [|c r]; [reflexivity|].
    destruct Hu as (Hm & Hpl & Hbl). cbn [trimStart].
    unfold blank in Hbl. apply not_true_is_false in Hbl. rewrite Hbl.
    cbn [strip_sign]. apply Z.eqb_neq in Hm, Hpl. rewrite Hm, Hpl.
    now rewrite Hp, Ht.
  - cbn [trimStart]. replace (is_str_white_space 45) with false by reflexivity.
    cbn [strip_sign]. replace (45 =? 45) with true by reflexivity.
    now rewrite Hp, Ht.
  - cbn [trimStart]. replace (is_str_white_space 43) with false by reflexivity.
    cbn [strip_sign]. replace (43 =? 45) with false by reflexivity.
    replace (43 =? 43) with true by reflexivity.
    now rewrite Hp, Ht.
Qed.

End ParseIntEdges.

(** X2. An entry in exponent notation is stored as its mantissa rounded
    towards zero; the exponent is ignored, so 5e-1 is stored as 5 and
    1.5e1 as 1. *)
Theorem crop_offset_ignores_exponent
    (st : App.State) (e : scientific_entry) :
  well_formed (mantissa e) ->
  App.Offset.x
    (App.cropOffset (App.onChangeCropOffsetX (scientific_text e) st))
    = inject_Z (truncate (entry_value (mantissa e)))
  /\ App.Offset.y
    (App.cropOffset (App.onChangeCropOffsetY (scientific_text e) st))
    = inject_Z (truncate (entry_value (mantissa e))).
Proof.
  intros Hw.
  cbn [App.onChangeCropOffsetX App.onChangeCropOffsetY
    App.setCropOffset App.cropOffset App.Offset.x App.Offset.y].
  split; now apply parseInt_scientific.
Qed.

Lemma crop_offset_ignores_exponent_witness :
  App.Offset.x
    (App.cropOffset (App.onChangeCropOffsetX (JS.lit "5e-1") one_card))
    = inject_Z 5
  /\ App.Offset.x
       (App.cropOffset (App.onChangeCropOffsetX (JS.lit "1.5e1") one_card))
     = inject_Z 1.
Proof.
  split.
  - apply (crop_offset_ignores_exponent one_card five_e_minus_one).
    split; repeat constructor; lia.
  - apply (crop_offset_ignores_exponent one_card one_point_five_e_one).
    split; repeat constructor; lia.
Defined.

(** X3. An entry without a digit where the number should begin (an empty
    entry, a lone sign, a word) resets the crop offset to 0. *)
Theorem crop_offset_without_digits_is_zero
    (st : App.State) (ws body : JS.jsstring) :
  Forall blank ws -> starts_without_digit body ->
  (starts_unsigned body ->
     App.Offset.x (App.cropOffset (App.onChangeCropOffsetX (ws ++ body) st))
       = 0%Q
     /\ App.Offset.y (App.cropOffset (App.onChangeCropOffsetY (ws ++ body) st))
       = 0%Q)
  /\ App.Offset.x
       (App.cropOffset (App.onChangeCropOffsetX (ws ++ 0x2D :: body) st))
     = 0%Q
  /\ App.Offset.y
       (App.cropOffset (App.onChangeCropOffsetY (ws ++ 0x2D :: body) st))
     = 0%Q.
Proof.
  intros Hws Hb.
  destruct (parseInt_without_digits ws body Hws Hb) as (H0 & Hm & _).
  cbn [App.onChangeCropOffsetX App.onChangeCropOffsetY
    App.setCropOffset App.cropOffset App.Offset.x App.Offset.y].
  split; [intros Hu; split; now apply H0 | split; exact Hm].
Qed.

Lemma crop_offset_without_digits_is_zero_witness :
  App.Offset.x
    (App.cropOffset
       (App.onChangeCropOffsetX []
          (App.onChangeCropOffsetX (JS.lit "7") one_card)))
    = 0%Q
  /\ App.Offset.x
       (App.cropOffset (App.onChangeCropOffsetX (JS.lit " -.5") one_card))
     = 0%Q.
Proof.
  split.
  - apply (proj1 (crop_offset_without_digits_is_zero
                    (App.onChangeCropOffsetX (JS.lit "7") one_card) [] []
                    (Forall_nil_2 _) I) I).
  - apply (proj2 (crop_offset_without_digits_is_zero one_card
                    [0x20] (JS.lit ".5") ltac:(repeat constructor)
                    ltac:(vm_compute; intros [H _]; now apply H))).
Defined.

(** X4. There is no preview container while the list is empty; otherwise
    it holds one block per card, keyed by the card ids in list order, and
    every block but the last is followed by a divider. *)
Theorem blocks_follow_cards (st : App.State) :
  (App.render st = None <-> App.cards st = [])
  /\ forall c, App.render st = Some c ->
       length (App.PrintContainer.children c) = length (App.cards st)
       /\ map App.Wrapper.key (App.PrintContainer.children c)
          = map App.CardData.id (App.cards st)
       /\ forall i w, App.PrintContainer.children c !! i = Some w ->
            App.Wrapper.divider w = bool_decide (S i < length (App.cards st))%nat.
Proof.
  unfold App.render. destruct (App.cards st) as [|c0 cs] eqn:E.
  - split; [tauto | discriminate].
  - split; [split; discriminate|]. rewrite <- E. clear E c0 cs.
    intros c [= <-]. cbn [App.PrintContainer.children].
    split; [apply length_imap|]. split.
    + change (map App.Wrapper.key ?l) with (App.Wrapper.key <$> l).
      rewrite fmap_imap.
      change (fun n => App.Wrapper.key ∘ App.wrapper st n)
        with (fun _ : nat => App.CardData.id).
      apply (imap_const App.CardData.id).
    + intros i w Hw. rewrite list_lookup_imap in Hw.
      destruct (App.cards st !! i) as [card|]; [|discriminate].
      injection Hw as <-. cbn [App.wrapper App.Wrapper.divider].
      case_bool_decide as Hd.
      * apply Z.ltb_lt. lia.
      * apply Z.ltb_ge. lia.
Qed.

Lemma blocks_follow_cards_witness :
  exists c w0 w1,
    App.render (App.setCards [zhang_san; li_xiaoming] one_card) = Some c
    /\ App.PrintContainer.children c = [w0; w1]
    /\ App.Wrapper.divider w0 = true
    /\ App.Wrapper.divider w1 = false.
Proof.
  eexists. eexists. eexists. split; [reflexivity|]. split; [reflexivity|].
  destruct (proj2 (blocks_follow_cards
                     (App.setCards [zhang_san; li_xiaoming] one_card))
              _ eq_refl) as (_ & _ & Hd).
  split; [apply (Hd 0%nat _ eq_refl) | apply (Hd 1%nat _ eq_refl)].
Defined.

(** X5. The two faces of a page show the same four lines, in the order
    of the card's fields, with the same gap between them. *)
Theorem faces_are_congruent
    (st : App.State) (card : App.CardData.t) (s1 s2 : App.Side.t) :
  s1 ∈ App.printArea st card -> s2 ∈ App.printArea st card ->
  length (App.printArea st card) = 2%nat
  /\ App.Side.lines s1 = App.Side.lines s2
  /\ App.Side.gap s1 = App.Side.gap s2
  /\ App.Side.gap s1 = Css.Pt (App.globalSpacing st)
  /\ map App.Line.text (App.Side.lines s1)
     = [App.CardData.chineseName card; App.CardData.englishName card;
        App.CardData.chineseCompany card; App.CardData.englishCompany card].
Proof.
  unfold App.printArea. intros H1 H2.
  apply list_elem_of_fmap in H1 as (v1 & -> & _).
  apply list_elem_of_fmap in H2 as (v2 & -> & _).
  repeat split; reflexivity.
Qed.

Lemma faces_are_congruent_witness :
  exists s1 s2,
    App.printArea one_card zhang_san = [s1; s2]
    /\ App.Side.lines s1 = App.Side.lines s2.
Proof.
  eexists. eexists. split; [reflexivity|].
  apply (faces_are_congruent one_card zhang_san).
  - apply list_elem_of_here.
  - apply list_elem_of_further, list_elem_of_here.
Defined.

Section CardFacts.
Import App Cards.

Lemma setField_id f v c : CardData.id (setField f v c) = CardData.id c.
Proof. now destruct f. Qed.

Lemma getField_setField f v c : getField f (setField f v c) = v.
Proof. now destruct f. Qed.

Lemma getField_setField_other f g v c :
  g <> f -> getField g (setField f v c) = getField g c.
Proof. destruct f, g; intros H; try reflexivity; now destruct H. Qed.

Lemma filter_other_id (cs : list CardData.t) id :
  Forall (fun c => CardData.id c <> id) cs ->
  filter (fun c => CardData.id c <> id) cs = cs.
Proof.
  induction 1 as [|c cs Hc _ IH]; [reflexivity|].
  rewrite filter_cons_True by exact Hc. now rewrite IH.
Qed.

Lemma filter_unique_id (cs : list CardData.t) i c :
  NoDup (map CardData.id cs) -> cs !! i = Some c ->
  filter (fun c' => CardData.id c' <> CardData.id c) cs = delete i cs.
Proof.
  revert i. induction cs as [|c0 cs IH]; intros i Hnd Hi; [discriminate|].
  cbn [map] in Hnd. apply NoDup_cons in Hnd as [Hnotin Hnd].
  destruct i as [|i]; cbn in Hi.
  - injection Hi as ->. rewrite filter_cons_False by tauto.
    cbn [delete]. apply filter_other_id.
    apply Forall_forall. intros c' Hc' Heq. apply Hnotin.
    rewrite <- Heq. apply list_elem_of_fmap. eauto.
  - rewrite filter_cons_True.
    + cbn. f_equal. now apply IH.
    + intros Heq. apply Hnotin. rewrite Heq.
      apply list_elem_of_fmap. exists c. split; [reflexivity|].
      eapply list_elem_of_lookup_2, Hi.
Qed.

End CardFacts.

(** X6. Editing a field keeps the number, the order and the ids of the
    cards; a card with the given id gets the new text in that field and
    keeps its other fields, every other card is left as it is. *)
Theorem update_card_edits_in_place
    (st : App.State) (id : JS.jsstring) (f : App.field) (value : JS.jsstring) :
  length (App.cards (Cards.updateCard id f value st)) = length (App.cards st)
  /\ map App.CardData.id (App.cards (Cards.updateCard id f value st))
     = map App.CardData.id (App.cards st)
  /\ forall i c, App.cards st !! i = Some c ->
       exists c',
         App.cards (Cards.updateCard id f value st) !! i = Some c'
         /\ (App.CardData.id c = id -> Cards.getField f c' = value)
         /\ (App.CardData.id c <> id -> c' = c)
         /\ forall g, g <> f -> Cards.getField g c' = Cards.getField g c.
Proof.
  unfold Cards.updateCard. cbn [App.cards App.setCards].
  split; [apply length_map|]. split.
  - rewrite map_map. apply map_ext. intros c.
    case_bool_decide; [apply setField_id | reflexivity].
  - intros i c Hi. eexists. split.
    + change (map ?f ?l) with (f <$> l). rewrite list_lookup_fmap, Hi.
      reflexivity.
    + cbn beta. case_bool_decide as Hid.
      * split; [intros _ | split; [tauto|]].
        -- apply getField_setField.
        -- intros g Hg. now apply getField_setField_other.
      * split; [tauto | split; [reflexivity | reflexivity]].
Qed.

Lemma update_card_edits_in_place_witness :
  exists c',
    App.cards
      (Cards.updateCard (JS.lit "k1") App.EnglishName (JS.lit "Zhang San")
         (App.setCards [zhang_san; li_xiaoming] one_card)) !! 0%nat
    = Some c'
    /\ Cards.getField App.EnglishName c' = JS.lit "Zhang San"
    /\ Cards.getField App.ChineseName c' = Cards.getField App.ChineseName zhang_san.
Proof.
  destruct (update_card_edits_in_place
              (App.setCards [zhang_san; li_xiaoming] one_card)
              (JS.lit "k1") App.EnglishName (JS.lit "Zhang San"))
    as (_ & _ & H).
  destruct (H 0%nat zhang_san eq_refl) as (c' & Hc' & Hv & _ & Hg).
  exists c'. split; [exact Hc'|]. split; [now apply Hv|].
  apply Hg. discriminate.
Defined.

(** X7. Editing under an id no card has changes no card. *)
Theorem update_card_unknown_id
    (st : App.State) (id : JS.jsstring) (f : App.field) (value : JS.jsstring) :
  Forall (fun c => App.CardData.id c <> id) (App.cards st) ->
  App.cards (Cards.updateCard id f value st) = App.cards st.
Proof.
  unfold Cards.updateCard. cbn [App.cards App.setCards].
  induction 1 as [|c cs Hc _ IH]; [reflexivity|].
  cbn [map]. rewrite bool_decide_eq_false_2 by exact Hc. now rewrite IH.
Qed.

Lemma update_card_unknown_id_witness :
  App.cards (Cards.updateCard (JS.lit "zz") App.EnglishName [] one_card)
  = App.cards one_card.
Proof.
  apply update_card_unknown_id. repeat constructor. discriminate.
Defined.

(** X8. Removing by id drops every card of that id and keeps the others
    in order; when ids are distinct it deletes exactly the card at its
    position, and the pages after it move up unchanged. *)
Theorem remove_card_deletes_its_position
    (st : App.State) (i : nat) (c : App.CardData.t) :
  NoDup (map App.CardData.id (App.cards st)) ->
  App.cards st !! i = Some c ->
  App.cards (Cards.removeCard (App.CardData.id c) st) = delete i (App.cards st)
  /\ App.pages (Cards.removeCard (App.CardData.id c) st)
     = delete i (App.pages st)
  /\ Forall (fun c' => App.CardData.id c' <> App.CardData.id c)
            (App.cards (Cards.removeCard (App.CardData.id c) st)).
Proof.
  intros Hnd Hi.
  assert (Hc : App.cards (Cards.removeCard (App.CardData.id c) st)
               = delete i (App.cards st)).
  { unfold Cards.removeCard. cbn [App.cards App.setCards].
    now apply filter_unique_id. }
  split; [exact Hc|]. split.
  - rewrite !pages_map, Hc.
    change (App.printPage (Cards.removeCard (App.CardData.id c) st))
      with (App.printPage st).
    change (map ?f ?l) with (f <$> l). apply list_fmap_delete.
  - unfold Cards.removeCard. cbn [App.cards App.setCards].
    apply Forall_forall. intros c' Hc'.
    now apply list_elem_of_filter in Hc' as [Hne _].
Qed.

Lemma remove_card_deletes_its_position_witness :
  App.cards
    (Cards.removeCard (JS.lit "k1")
       (App.setCards [zhang_san; li_xiaoming] one_card))
  = [li_xiaoming].
Proof.
  apply (remove_card_deletes_its_position
           (App.setCards [zhang_san; li_xiaoming] one_card) 0%nat zhang_san).
  - apply (bool_decide_unpack _). vm_compute. exact I.
  - reflexivity.
Defined.

(** X9. A card added under a fresh id comes first and its page is the
    first page, before the pages there were; removing it again gives the
    list back. With widening on, its placeholder name of two ideographs
    is widened. *)
Theorem add_then_remove_card (st : App.State) (newId : JS.jsstring) :
  Forall (fun c => App.CardData.id c <> newId) (App.cards st) ->
  App.pages (Cards.addEmptyCard newId st)
    = App.printPage (App.setCards [] st) (Cards.emptyCard newId) :: App.pages st
  /\ App.cards (Cards.removeCard newId (Cards.addEmptyCard newId st))
     = App.cards st
  /\ (App.enableTwoCharWidening st = true ->
      App.Line.letterSpacing
        (App.chineseNameLine st (Cards.emptyCard newId))
      = Css.Em (1 + 2 * App.letterSpacings st App.ChineseName)).
Proof.
  intros Hfresh. split; [|split].
  - rewrite !pages_map. reflexivity.
  - unfold Cards.removeCard, Cards.addEmptyCard.
    cbn [App.cards App.setCards].
    rewrite filter_cons_False by (cbn; tauto).
    now apply filter_other_id.
  - intros Hw. cbn [App.chineseNameLine App.Line.letterSpacing]. rewrite Hw.
    rewrite widening_fires; [reflexivity|].
    exists 0x59d3, 0x540d. unfold ideograph. vm_compute.
    repeat split; discriminate.
Qed.

Lemma add_then_remove_card_witness :
  App.cards (Cards.removeCard (JS.lit "k9")
               (Cards.addEmptyCard (JS.lit "k9") one_card))
  = App.cards one_card.
Proof.
  apply (add_then_remove_card one_card (JS.lit "k9")).
  repeat constructor. discriminate.
Defined.

(** X10. Editing a card changes the pages of the cards with its id and
    no other page. *)
Theorem edit_changes_only_its_pages
    (st : App.State) (id : JS.jsstring) (f : App.field) (value : JS.jsstring)
    (i : nat) (c : App.CardData.t) :
  App.cards st !! i = Some c ->
  (App.CardData.id c <> id ->
     App.pages (Cards.updateCard id f value st) !! i = App.pages st !! i)
  /\ (App.CardData.id c = id ->
     App.pages (Cards.updateCard id f value st) !! i
       = Some (App.printPage (App.setCards [] st) (Cards.setField f value c))).
Proof.
  intros Hi. rewrite !pages_map.
  unfold Cards.updateCard at 2 4. cbn [App.cards App.setCards].
  change (App.printPage (Cards.updateCard id f value st))
    with (App.printPage (App.setCards [] st)).
  change (App.printPage st) with (App.printPage (App.setCards [] st)).
  change (map ?f ?l) with (f <$> l). rewrite !list_lookup_fmap, Hi.
  cbn [fmap option_fmap option_map].
  split; intros Hid.
  - now rewrite bool_decide_eq_false_2.
  - now rewrite bool_decide_eq_true_2.
Qed.

Lemma edit_changes_only_its_pages_witness :
  App.pages
    (Cards.updateCard (JS.lit "k1") App.EnglishName (JS.lit "Zhang San")
       (App.setCards [zhang_san; li_xiaoming] one_card)) !! 1%nat
  = App.pages (App.setCards [zhang_san; li_xiaoming] one_card) !! 1%nat.
Proof.
  apply (edit_changes_only_its_pages
           (App.setCards [zhang_san; li_xiaoming] one_card)
           (JS.lit "k1") App.EnglishName (JS.lit "Zhang San") 1%nat li_xiaoming
           eq_refl).
  discriminate.
Defined.

Section ImportFacts.
Import JS App Spreadsheet.
Variable numberToString : Q -> jsstring.

Lemma fold_keeps_truthy (item : gmap (list Z) cell) (keys : list jsstring) acc :
  is_truthy acc = true ->
  fold_left (fun a k => or_value a (item !! k)) keys acc = acc.
Proof.
  revert acc. induction keys as [|k r IH]; intros acc Ha; [reflexivity|].
  cbn [fold_left]. destruct acc as [c|]; [|discriminate].
  cbn in Ha. cbn [or_value]. rewrite Ha. apply IH. exact Ha.
Qed.

Lemma or_value_falsy acc b : is_truthy acc = false -> or_value acc b = b.
Proof. destruct acc as [c|]; [|reflexivity]. cbn. now intros ->. Qed.

Lemma fold_finds_first (item : gmap (list Z) cell) (keys : list jsstring) acc d :
  is_truthy acc = false ->
  or_value (fold_left (fun a k => or_value a (item !! k)) keys acc) d
  = or_value (first_truthy keys item) d.
Proof.
  revert acc. induction keys as [|k r IH]; intros acc Ha.
  - cbn. now apply or_value_falsy.
  - cbn [fold_left first_truthy]. rewrite (or_value_falsy _ _ Ha).
    destruct (item !! k) as [c|] eqn:E.
    + destruct (truthy c) eqn:Hc.
      * now rewrite fold_keeps_truthy.
      * now apply IH.
    + now apply IH.
Qed.

Lemma first_truthy_truthy keys item c :
  first_truthy keys item = Some c -> truthy c = true.
Proof.
  induction keys as [|k r IH]; [discriminate|]. cbn.
  destruct (item !! k) as [c0|]; [|exact IH].
  destruct (truthy c0) eqn:E; [|exact IH]. now intros [= <-].
Qed.

Lemma column_first_truthy keys item :
  column numberToString keys item
  = match first_truthy keys item with
    | Some c => toString numberToString (Some c)
    | None => []
    end.
Proof.
  unfold column. rewrite fold_finds_first by reflexivity.
  destruct (first_truthy keys item) as [c|] eqn:E; [|reflexivity].
  cbn [or_value]. now rewrite (first_truthy_truthy _ _ _ E).
Qed.

Lemma first_truthy_ext (keys : list jsstring) (item1 item2 : gmap (list Z) cell) :
  (forall k, k ∈ keys -> item1 !! k = item2 !! k) ->
  first_truthy keys item1 = first_truthy keys item2.
Proof.
  induction keys as [|k r IH]; intros H; [reflexivity|]. cbn.
  rewrite (H k) by apply list_elem_of_here.
  rewrite IH; [reflexivity|]. intros k' Hk'. apply H.
  now apply list_elem_of_further.
Qed.

End ImportFacts.

(** X11. An import stores the cards that were there when the file was
    chosen, followed by one card per row in row order, and nothing else:
    a card added since then is gone. When the list has not changed in
    between, its cards keep their places and its pages stay the first
    pages, unchanged. *)
Theorem import_stores_captured_cards
    (numberToString : Q -> JS.jsstring) (ids : nat -> JS.jsstring)
    (data : list (gmap (list Z) Spreadsheet.cell))
    (captured : list App.CardData.t) (st : App.State) :
  let st' := Spreadsheet.handleFileUpload numberToString ids data captured st in
  length (App.cards st') = (length captured + length data)%nat
  /\ (forall i c, captured !! i = Some c -> App.cards st' !! i = Some c)
  /\ (forall i item, data !! i = Some item ->
        App.cards st' !! (length captured + i)%nat
        = Some (Spreadsheet.mapRow numberToString (ids i) item))
  /\ (forall c, c ∈ App.cards st' ->
        c ∈ captured
        \/ exists i item,
             data !! i = Some item
             /\ c = Spreadsheet.mapRow numberToString (ids i) item)
  /\ (captured = App.cards st ->
      take (length (App.cards st)) (App.pages st') = App.pages st).
Proof.
  cbv zeta. unfold Spreadsheet.handleFileUpload.
  cbn [App.cards App.setCards].
  split; [now rewrite length_app, length_imap|].
  split; [intros i c Hi; now apply lookup_app_l_Some|].
  split; [|split].
  - intros i item Hi. rewrite lookup_app_r by lia.
    replace (length captured + i - length captured)%nat with i by lia.
    now rewrite list_lookup_imap, Hi.
  - intros c Hc. apply elem_of_app in Hc as [Hc | Hc]; [now left|].
    right. apply elem_of_lookup_imap in Hc as (i & item & -> & Hi). eauto.
  - intros ->. rewrite !pages_map. cbn [App.cards App.setCards].
    change (App.printPage (App.setCards ?l st)) with (App.printPage st).
    rewrite map_app, <- (length_map (App.printPage st) (App.cards st)).
    apply take_app_length.
Qed.

Lemma import_stores_captured_cards_witness :
  App.cards
    (Spreadsheet.handleFileUpload no_digits (fun _ => JS.lit "k3")
       [sample_row] (App.cards one_card)
       (Cards.addEmptyCard (JS.lit "k9") one_card)) !! 0%nat
  = Some zhang_san
  /\ take (length (App.cards one_card))
       (App.pages
          (Spreadsheet.handleFileUpload no_digits (fun _ => JS.lit "k3")
             [sample_row] (App.cards one_card) one_card))
     = App.pages one_card.
Proof.
  split.
  - apply (proj1 (proj2 (import_stores_captured_cards no_digits
                           (fun _ => JS.lit "k3") [sample_row]
                           (App.cards one_card)
                           (Cards.addEmptyCard (JS.lit "k9") one_card)))
             0%nat zhang_san).
    reflexivity.
  - apply (proj2 (proj2 (proj2 (proj2
             (import_stores_captured_cards no_digits
                (fun _ => JS.lit "k3") [sample_row]
                (App.cards one_card) one_card))))).
    reflexivity.
Defined.

(** X12. Each text field of an imported card is the text of the first of
    its header aliases whose cell is there and truthy; empty, zero,
    false and missing cells are passed over, and a row without such a
    cell gives the empty string. *)
Theorem column_takes_first_truthy
    (numberToString : Q -> JS.jsstring)
    (keys : list JS.jsstring) (item : gmap (list Z) Spreadsheet.cell) :
  Spreadsheet.column numberToString keys item
  = match first_truthy keys item with
    | Some c => Spreadsheet.toString numberToString (Some c)
    | None => []
    end.
Proof. apply column_first_truthy. Qed.

(** X13. A column whose header is none of the aliases has no influence
    on the imported card. *)
Theorem unmapped_columns_ignored
    (numberToString : Q -> JS.jsstring) (newId k : JS.jsstring)
    (v : Spreadsheet.cell) (item : gmap (list Z) Spreadsheet.cell) :
  k ∉ mapped_headers ->
  Spreadsheet.mapRow numberToString newId (<[k := v]> item)
  = Spreadsheet.mapRow numberToString newId item.
Proof.
  intros Hk. unfold Spreadsheet.mapRow. rewrite !column_first_truthy.
  assert (H : forall keys, (forall k', k' ∈ keys -> k' ∈ mapped_headers) ->
            first_truthy keys (<[k := v]> item) = first_truthy keys item).
  { intros keys Hsub. apply first_truthy_ext. intros k' Hk'.
    apply lookup_insert_ne. intros ->. apply Hk, Hsub, Hk'. }
  unfold mapped_headers in H.
  rewrite !H; [reflexivity| | | |]; intros k' Hk';
    rewrite !elem_of_app; tauto.
Qed.

Lemma unmapped_columns_ignored_witness :
  Spreadsheet.mapRow no_digits (JS.lit "k3")
    (<[JS.lit "Remark" := Spreadsheet.Numeric 7]> sample_row)
  = Spreadsheet.mapRow no_digits (JS.lit "k3") sample_row.
Proof.
  apply unmapped_columns_ignored.
  apply (bool_decide_unpack _). vm_compute. exact I.
Defined.

Section PresetFacts.
Import JS App Presets.

Lemma findIndex_Some {A} (p : A -> bool) l i :
  findIndex p l = Some i -> exists x, l !! i = Some x /\ p x = true.
Proof.
  revert i. induction l as [|x r IH]; intros i; [discriminate|]. cbn.
  destruct (p x) eqn:E.
  - intros [= <-]. eauto.
  - destruct (findIndex p r) as [j|]; [|discriminate].
    intros [= <-]. now apply IH.
Qed.

Lemma findIndex_None {A} (p : A -> bool) l :
  findIndex p l = None -> Forall (fun x => p x = false) l.
Proof.
  induction l as [|x r IH]; [constructor|]. cbn.
  destruct (p x) eqn:E; [discriminate|].
  destruct (findIndex p r); [discriminate|]. intros _.
  constructor; [exact E | now apply IH].
Qed.

Lemma upsert_cons new x r :
  upsert new (x :: r)
  = if bool_decide (Preset.id x = Preset.id new)
    then new :: r else x :: upsert new r.
Proof.
  unfold upsert. cbn [findIndex]. case_bool_decide; [reflexivity|].
  destruct (findIndex _ r); reflexivity.
Qed.

Lemma find_upsert new prev :
  List.find (fun p => bool_decide (Preset.id p = Preset.id new)) (upsert new prev)
  = Some new.
Proof.
  induction prev as [|x r IH].
  - cbn. now rewrite bool_decide_eq_true_2.
  - rewrite upsert_cons. case_bool_decide as E; cbn [List.find].
    + now rewrite bool_decide_eq_true_2.
    + now rewrite bool_decide_eq_false_2.
Qed.


Lemma upsert_others new prev :
  filter (fun p => Preset.id p <> Preset.id new) (upsert new prev)
  = filter (fun p => Preset.id p <> Preset.id new) prev.
Proof.
  induction prev as [|x r IH].
  - change (upsert new []) with [new].
    now rewrite filter_cons_False by (intros H; now apply H).
  - rewrite upsert_cons. case_bool_decide as E.
    + rewrite !filter_cons_False; [reflexivity| |]; intros H; now apply H.
    + now rewrite !filter_cons_True, IH by exact E.
Qed.

Lemma upsert_length new prev :
  length (upsert new prev)
  = if bool_decide (Preset.id new ∈ map Preset.id prev)
    then length prev else S (length prev).
Proof.
  induction prev as [|x r IH].
  - cbn. rewrite bool_decide_eq_false_2; [reflexivity|]. apply not_elem_of_nil.
  - rewrite upsert_cons. cbn [map].
    destruct (decide (Preset.id x = Preset.id new)) as [E|E].
    + rewrite (bool_decide_eq_true_2 _ E).
      rewrite bool_decide_eq_true_2; [reflexivity|].
      rewrite E. apply list_elem_of_here.
    + rewrite (bool_decide_eq_false_2 _ E). cbn [length]. rewrite IH.
      destruct (decide (Preset.id new ∈ map Preset.id r)) as [Hin|Hin].
      * rewrite (bool_decide_eq_true_2 _ Hin).
        rewrite bool_decide_eq_true_2; [reflexivity|].
        now apply list_elem_of_further.
      * rewrite (bool_decide_eq_false_2 _ Hin).
        rewrite bool_decide_eq_false_2; [reflexivity|].
        intros H. apply elem_of_cons in H as [H | H]; congruence.
Qed.

Lemma upsert_twice new prev : upsert new (upsert new prev) = upsert new prev.
Proof.
  induction prev as [|x r IH].
  - cbn. unfold upsert. cbn. now rewrite bool_decide_eq_true_2.
  - rewrite upsert_cons. case_bool_decide as E.
    + rewrite upsert_cons. now rewrite bool_decide_eq_true_2.
    + rewrite upsert_cons. rewrite bool_decide_eq_false_2 by exact E.
      now rewrite IH.
Qed.



Lemma same_image_same_element {A B} (f : A -> B) (l : list A) x y :
  NoDup (map f l) -> x ∈ l -> y ∈ l -> f x = f y -> x = y.
Proof.
  induction l as [|a r IH]; intros Hnd Hx Hy Hf.
  - now apply elem_of_nil in Hx.
  - cbn [map] in Hnd. apply NoDup_cons in Hnd as [Ha Hr].
    apply elem_of_cons in Hx as [-> | Hx];
      apply elem_of_cons in Hy as [-> | Hy]; [reflexivity| | |now apply IH].
    + exfalso. apply Ha. rewrite Hf. apply list_elem_of_fmap. eauto.
    + exfalso. apply Ha. rewrite <- Hf. apply list_elem_of_fmap. eauto.
Qed.

(** The preset that is sent has the id of any stored preset of its name. *)
Lemma newPreset_id name randomId st q :
  NoDup (map Preset.name (presets st)) ->
  q ∈ presets st -> Preset.name q = name ->
  Preset.id q = Preset.id (newPreset name randomId st).
Proof.
  intros Hnm Hq Hname. unfold newPreset. cbn [Preset.id].
  destruct (findIndex _ (presets st)) as [i|] eqn:E.
  - apply findIndex_Some in E as (x & Hx & Hb).
    apply bool_decide_eq_true in Hb. rewrite Hx. cbn.
    f_equal. apply (same_image_same_element Preset.name (presets st));
      [exact Hnm | exact Hq | eapply list_elem_of_lookup_2, Hx | congruence].
  - apply findIndex_None in E. rewrite Forall_forall in E.
    specialize (E q Hq). apply bool_decide_eq_false in E. contradiction.
Qed.

Lemma remove_upsert new prev :
  remove (Preset.id new) (upsert new prev) = remove (Preset.id new) prev.
Proof.
  unfold remove. induction prev as [|x r IH].
  - change (upsert new []) with [new].
    now rewrite filter_cons_False by (intros H; now apply H).
  - rewrite upsert_cons. case_bool_decide as E.
    + rewrite !filter_cons_False; [reflexivity| |]; intros H; now apply H.
    + now rewrite !filter_cons_True, IH by exact E.
Qed.

Lemma remove_absent id (prev : list Preset.t) :
  Forall (fun p => Preset.id p <> id) prev -> remove id prev = prev.
Proof.
  unfold remove. induction 1 as [|x r Hx _ IH]; [reflexivity|].
  now rewrite filter_cons_True, IH by exact Hx.
Qed.

Lemma find_absent id (prev : list Preset.t) :
  Forall (fun p => Preset.id p <> id) prev ->
  List.find (fun p => bool_decide (Preset.id p = id)) prev = None.
Proof.
  induction 1 as [|x r Hx _ IH]; [reflexivity|]. cbn.
  now rewrite bool_decide_eq_false_2.
Qed.

Lemma remove_gone id (prev : list Preset.t) :
  Forall (fun p => Preset.id p <> id) (remove id prev).
Proof.
  apply Forall_forall. intros p Hp.
  now apply list_elem_of_filter in Hp as [Hne _].
Qed.

End PresetFacts.

Section PresetLoadFacts.
Import JS App Presets.

Lemma find_unique (l : list Preset.t) p :
  NoDup (map Preset.id l) -> p ∈ l ->
  List.find (fun q => bool_decide (Preset.id q = Preset.id p)) l = Some p.
Proof.
  intros Hnd Hp. destruct (List.find _ l) as [q|] eqn:E.
  - apply find_some in E as [Hq Hb]. apply bool_decide_eq_true in Hb.
    f_equal. apply (same_image_same_element Preset.id l);
      [exact Hnd | now apply list_elem_of_In | exact Hp | exact Hb].
  - apply list_elem_of_In in Hp. pose proof (find_none _ _ E _ Hp) as Hb.
    cbn beta in Hb. now apply bool_decide_eq_false in Hb.
Qed.

Lemma savePreset_saved name randomId st :
  name <> [] ->
  savePreset (Some name) randomId true true st
  = setCurrentPresetId (Preset.id (newPreset name randomId st))
      (setPresets (upsert (newPreset name randomId st) (presets st)) st).
Proof.
  intros Hne. unfold savePreset. destruct name as [|c r]; [congruence|].
  now rewrite andb_false_r.
Qed.

End PresetLoadFacts.

(** X14. Storing a preset, in the store as in the component, makes it
    the preset found under its id, leaves the presets of other ids as
    they were and in order, lengthens the list only for a new id, and
    storing it a second time changes nothing. *)
Theorem upsert_stores_preset (new : App.Preset.t) (prev : list App.Preset.t) :
  List.find (fun p => bool_decide (App.Preset.id p = App.Preset.id new))
            (Presets.upsert new prev) = Some new
  /\ filter (fun p => App.Preset.id p <> App.Preset.id new)
            (Presets.upsert new prev)
     = filter (fun p => App.Preset.id p <> App.Preset.id new) prev
  /\ length (Presets.upsert new prev)
     = (if bool_decide (App.Preset.id new ∈ map App.Preset.id prev)
        then length prev else S (length prev))
  /\ Presets.upsert new (Presets.upsert new prev) = Presets.upsert new prev.
Proof.
  split; [apply find_upsert|]. split; [apply upsert_others|].
  split; [apply upsert_length | apply upsert_twice].
Qed.

(** X15. Saving the settings under a name and loading that preset later
    brings back every layout setting as it was saved, except that a
    preview scale of 0 comes back as 0.75; the rotate switch and the
    cards are not part of a preset and stay as they are. *)
Theorem save_then_load_restores
    (st st2 : App.State) (name randomId : JS.jsstring) :
  name <> [] ->
  App.presets st2
    = App.presets (Presets.savePreset (Some name) randomId true true st) ->
  let st3 :=
    App.loadPreset
      (App.currentPresetId (Presets.savePreset (Some name) randomId true true st))
      st2 in
  App.fontSize st3 = App.fontSize st
  /\ App.offsets st3 = App.offsets st
  /\ App.fontFamilies st3 = App.fontFamilies st
  /\ App.letterSpacings st3 = App.letterSpacings st
  /\ App.globalSpacing st3 = App.globalSpacing st
  /\ App.enableTwoCharWidening st3 = App.enableTwoCharWidening st
  /\ App.showCropMarks st3 = App.showCropMarks st
  /\ App.showFoldLine st3 = App.showFoldLine st
  /\ App.cropOffset st3 = App.cropOffset st
  /\ App.previewScale st3
     = (if Qeq_bool (App.previewScale st) 0 then 75 # 100
        else App.previewScale st)
  /\ App.printRotate st3 = App.printRotate st2
  /\ App.cards st3 = App.cards st2.
Proof.
  intros Hne Hp. cbv zeta. rewrite (savePreset_saved _ _ _ Hne) in *.
  cbn [App.currentPresetId App.presets Presets.setCurrentPresetId
       App.setPresets] in *.
  unfold App.loadPreset. rewrite Hp, find_upsert.
  repeat split; reflexivity.
Qed.

Lemma save_then_load_restores_witness :
  App.letterSpacings
    (App.loadPreset
       (App.currentPresetId
          (Presets.savePreset (Some (JS.lit "mine")) (JS.lit "r1") true true
             two_presets))
       (App.resetToDefault
          (Presets.savePreset (Some (JS.lit "mine")) (JS.lit "r1") true true
             two_presets)))
  = App.letterSpacings two_presets.
Proof.
  apply (save_then_load_restores two_presets
           (App.resetToDefault
              (Presets.savePreset (Some (JS.lit "mine")) (JS.lit "r1") true true
                 two_presets))
           (JS.lit "mine") (JS.lit "r1")).
  - discriminate.
  - reflexivity.
Defined.

(** X16. Saving changes nothing when the prompt is dismissed or left
    empty, when the store refuses the request, whatever the name, or
    when the name exists already and overwriting it is declined. *)
Theorem save_preset_cancelled
    (st : App.State) (name randomId : JS.jsstring) (overwrite saved : bool) :
  Presets.savePreset None randomId overwrite saved st = st
  /\ Presets.savePreset (Some []) randomId overwrite saved st = st
  /\ Presets.savePreset (Some name) randomId overwrite false st = st
  /\ ((exists p, p ∈ App.presets st /\ App.Preset.name p = name) ->
      Presets.savePreset (Some name) randomId false saved st = st).
Proof.
  split; [reflexivity|]. split; [reflexivity|].
  unfold Presets.savePreset. destruct name as [|c r]; [now split|]. split.
  - destruct (_ && _); reflexivity.
  - intros (p & Hp & Hname).
    assert (Hex : bool_decide
                    (is_Some (Presets.findIndex
                       (fun q => bool_decide (App.Preset.name q = c :: r))
                       (App.presets st))) = true).
    { apply bool_decide_eq_true_2.
      destruct (Presets.findIndex _ (App.presets st)) eqn:E; [eauto|].
      apply findIndex_None in E. rewrite Forall_forall in E.
      specialize (E p Hp). apply bool_decide_eq_false in E. contradiction. }
    now rewrite Hex.
Qed.

Lemma save_preset_cancelled_witness :
  Presets.savePreset (Some (JS.lit "wide")) (JS.lit "r1") false true two_presets
  = two_presets.
Proof.
  apply (save_preset_cancelled two_presets (JS.lit "wide") (JS.lit "r1")
           false true).
  exists full_preset. split.
  - apply list_elem_of_further, list_elem_of_here.
  - reflexivity.
Defined.



Section OverwriteFacts.
Import JS App Presets.

Lemma upsert_at (l : list Preset.t) i p new :
  NoDup (map Preset.id l) -> l !! i = Some p -> Preset.id new = Preset.id p ->
  upsert new l = <[i := new]> l.
Proof.
  revert i. induction l as [|x r IH]; intros i Hnd Hi Hid; [discriminate|].
  cbn [map] in Hnd. apply NoDup_cons in Hnd as [Hx Hr].
  rewrite upsert_cons. destruct i as [|i]; cbn in Hi.
  - injection Hi as ->. now rewrite bool_decide_eq_true_2.
  - rewrite bool_decide_eq_false_2.
    + cbn. f_equal. now apply IH.
    + intros E. apply Hx. rewrite E, Hid. apply list_elem_of_fmap.
      exists p. split; [reflexivity|]. eapply list_elem_of_lookup_2, Hi.
Qed.

End OverwriteFacts.

(** X18. With distinct ids and names, saving under the name of a stored
    preset and agreeing to overwrite puts the new settings at that
    preset's place, under its id, and makes it the current preset; the
    list keeps its length and its other entries. *)
Theorem overwrite_keeps_place
    (st : App.State) (i : nat) (p : App.Preset.t) (randomId : JS.jsstring) :
  NoDup (map App.Preset.id (App.presets st)) ->
  NoDup (map App.Preset.name (App.presets st)) ->
  App.presets st !! i = Some p -> App.Preset.name p <> [] ->
  let st' :=
    Presets.savePreset (Some (App.Preset.name p)) randomId true true st in
  App.presets st'
    = <[i := App.Preset.mk (App.Preset.id p) (App.Preset.name p)
                (Presets.currentSettings st)]> (App.presets st)
  /\ App.currentPresetId st' = App.Preset.id p
  /\ length (App.presets st') = length (App.presets st).
Proof.
  intros Hid Hnm Hi Hne. cbv zeta. rewrite (savePreset_saved _ _ _ Hne).
  cbn [App.presets App.currentPresetId Presets.setCurrentPresetId
       App.setPresets].
  assert (Hp : p ∈ App.presets st) by (eapply list_elem_of_lookup_2, Hi).
  pose proof (newPreset_id (App.Preset.name p) randomId st p Hnm Hp eq_refl)
    as Hnew.
  assert (Hsame : Presets.newPreset (App.Preset.name p) randomId st
                  = App.Preset.mk (App.Preset.id p) (App.Preset.name p)
                      (Presets.currentSettings st)).
  { unfold Presets.newPreset in *. cbn [App.Preset.id] in Hnew.
    now rewrite <- Hnew. }
  rewrite Hsame.
  rewrite (upsert_at (App.presets st) i p
             (App.Preset.mk (App.Preset.id p) (App.Preset.name p)
                (Presets.currentSettings st)) Hid Hi eq_refl).
  split; [reflexivity|]. split; [reflexivity|]. apply length_insert.
Qed.

Lemma overwrite_keeps_place_witness :
  App.presets
    (Presets.savePreset (Some (JS.lit "wide")) (JS.lit "r1") true true
       two_presets)
  = [legacy_preset;
     App.Preset.mk (JS.lit "p2") (JS.lit "wide")
       (Presets.currentSettings two_presets)].
Proof.
  apply (overwrite_keeps_place two_presets 1%nat full_preset (JS.lit "r1")).
  - apply (bool_decide_unpack _); vm_compute; exact I.
  - apply (bool_decide_unpack _); vm_compute; exact I.
  - reflexivity.
  - discriminate.
Defined.

(** X19. Deleting by id leaves no preset of that id; deleting an id that
    is not stored changes nothing; storing a preset under a new id and
    deleting it again gives the list back. *)
Theorem remove_preset_round_trip
    (new : App.Preset.t) (id : JS.jsstring) (prev : list App.Preset.t) :
  Forall (fun p => App.Preset.id p <> id) (Presets.remove id prev)
  /\ Presets.remove (App.Preset.id new) (Presets.upsert new prev)
     = Presets.remove (App.Preset.id new) prev
  /\ (Forall (fun p => App.Preset.id p <> id) prev ->
      Presets.remove id prev = prev)
  /\ (Forall (fun p => App.Preset.id p <> App.Preset.id new) prev ->
      Presets.remove (App.Preset.id new) (Presets.upsert new prev) = prev).
Proof.
  split; [apply remove_gone|]. split; [apply remove_upsert|].
  split; [apply remove_absent|].
  intros H. rewrite remove_upsert. now apply remove_absent.
Qed.

Lemma remove_preset_round_trip_witness :
  Presets.remove (JS.lit "p2") (Presets.upsert full_preset [legacy_preset])
  = [legacy_preset].
Proof.
  apply (remove_preset_round_trip full_preset (JS.lit "p2") [legacy_preset]).
  repeat constructor. discriminate.
Defined.


(** X21. Loading an id that is not stored changes nothing, and loading
    the same preset twice is the same as loading it once. *)
Theorem load_preset_unknown_or_twice (st : App.State) (presetId : JS.jsstring) :
  (Forall (fun p => App.Preset.id p <> presetId) (App.presets st) ->
   App.loadPreset presetId st = st)
  /\ App.loadPreset presetId (App.loadPreset presetId st)
     = App.loadPreset presetId st.
Proof.
  split.
  - intros H. unfold App.loadPreset. now rewrite find_absent.
  - unfold App.loadPreset at 2 3.
    destruct (List.find _ (App.presets st)) as [p|] eqn:E.
    + unfold App.loadPreset. cbn [App.presets]. now rewrite E.
    + unfold App.loadPreset. now rewrite E.
Qed.

Lemma load_preset_unknown_or_twice_witness :
  App.loadPreset (JS.lit "p7") two_presets = two_presets.
Proof.
  apply (proj1 (load_preset_unknown_or_twice two_presets (JS.lit "p7"))).
  repeat constructor; discriminate.
Defined.

(** X22. A stored preview scale is taken over on loading unless it is 0,
    which is read as missing and replaced by 0.75. *)
Theorem load_preview_scale_zero
    (st : App.State) (preset : App.Preset.t) (q : Q) :
  NoDup (map App.Preset.id (App.presets st)) ->
  preset ∈ App.presets st ->
  App.Settings.previewScale (App.Preset.settings preset) = Some q ->
  ((q == 0)%Q ->
     App.previewScale (App.loadPreset (App.Preset.id preset) st) = (75 # 100)%Q)
  /\ (~ (q == 0)%Q ->
     App.previewScale (App.loadPreset (App.Preset.id preset) st) = q).
Proof.
  intros Hnd Hp Hq. unfold App.loadPreset. rewrite (find_unique _ _ Hnd Hp).
  cbn [App.previewScale]. rewrite Hq. cbn [App.number_or Number.or_else].
  split; intros Hz.
  - apply Qeq_bool_iff in Hz. now rewrite Hz.
  - destruct (Qeq_bool q 0) eqn:E; [|reflexivity].
    apply Qeq_bool_iff in E. contradiction.
Qed.

Lemma load_preview_scale_zero_witness :
  App.previewScale
    (App.loadPreset (JS.lit "p0") (App.setPresets [zero_scale_preset] one_card))
  = (75 # 100)%Q.
Proof.
  apply (proj1 (load_preview_scale_zero
                  (App.setPresets [zero_scale_preset] one_card)
                  zero_scale_preset 0
                  ltac:(apply (bool_decide_unpack _); vm_compute; exact I)
                  ltac:(apply list_elem_of_here) eq_refl)).
  reflexivity.
Defined.

Section FileNameFacts.
Import JS Server.

Lemma unsafe_char_spec c : class_matches unsafe_char c = false <-> safe_char c.
Proof.
  unfold class_matches, unsafe_char, safe_char; cbn [negated ranges existsb fst snd].
  rewrite orb_false_r. unfold xorb.
  destruct (in_range 97 122 c) eqn:E1; [apply in_range_spec in E1; intuition|].
  destruct (in_range 65 90 c) eqn:E2; [apply in_range_spec in E2; intuition|].
  destruct (in_range 48 57 c) eqn:E3; [apply in_range_spec in E3; intuition|].
  destruct (in_range 95 95 c) eqn:E4;
    [apply in_range_spec in E4; split; [intros _|reflexivity];
     right; right; right; left; lia|].
  destruct (in_range 19968 40869 c) eqn:E5;
    [apply in_range_spec in E5; intuition|].
  destruct (in_range 46 46 c) eqn:E6;
    [apply in_range_spec in E6; split; [intros _|reflexivity];
     right; right; right; right; left; lia|].
  cbn. split; [discriminate|]. intros H. exfalso.
  apply not_true_iff_false in E1, E2, E3, E4, E5, E6.
  rewrite in_range_spec in E1, E2, E3, E4, E5, E6. lia.
Qed.

Lemma filename_map file :
  filename file = map sanitize_char (File.originalname file).
Proof.
  unfold filename, replace_class. induction (File.originalname file) as [|c r IH];
    [reflexivity|].
  cbn [map concat]. rewrite IH. unfold sanitize_char.
  destruct (class_matches unsafe_char c); reflexivity.
Qed.

Lemma sanitize_char_safe c : safe_char (sanitize_char c).
Proof.
  unfold sanitize_char. destruct (class_matches unsafe_char c) eqn:E.
  - unfold safe_char. lia.
  - now apply unsafe_char_spec.
Qed.

Lemma sanitize_char_id c : safe_char c -> sanitize_char c = c.
Proof.
  intros H. apply unsafe_char_spec in H. unfold sanitize_char. now rewrite H.
Qed.

End FileNameFacts.

Section ExtensionFacts.
Import JS Server.

Lemma to_lower_sanitize c t :
  extension_char t -> to_lower (sanitize_char c) = t <-> to_lower c = t.
Proof.
  intros Ht. unfold sanitize_char.
  destruct (class_matches unsafe_char c) eqn:E; [|reflexivity].
  assert (Hc : ~ safe_char c).
  { intros H. apply unsafe_char_spec in H. congruence. }
  unfold to_lower. change (in_range 65 90 95) with false. cbn iota.
  destruct (in_range 65 90 c) eqn:Eu.
  - apply in_range_spec in Eu. exfalso. apply Hc. unfold safe_char. lia.
  - unfold extension_char in Ht. unfold safe_char in Hc. lia.
Qed.

Lemma map_matches_pattern (f g : Z -> Z) (s pat : list Z) :
  Forall extension_char pat ->
  (forall c t, extension_char t -> f c = t -> g c = t) ->
  map f s = pat -> map g s = pat.
Proof.
  intros Hpat Hfg. revert pat Hpat. induction s as [|c r IH]; intros pat Hpat.
  - cbn. auto.
  - cbn [map]. intros <-. apply Forall_cons in Hpat as [Hc Hr].
    f_equal; [now apply Hfg | now apply IH].
Qed.

Lemma suffix_transfer (f g : Z -> Z) (s pat : list Z) :
  Forall extension_char pat ->
  (forall c t, extension_char t -> f c = t -> g c = t) ->
  suffix pat (map f s) -> suffix pat (map g s).
Proof.
  intros Hpat Hfg [k Hk].
  change (map f s) with (f <$> s) in Hk.
  apply fmap_app_inv in Hk as (s1 & s2 & -> & Hp & ->).
  exists (map g s1). rewrite map_app. f_equal.
  now apply (map_matches_pattern f g); [| |symmetry].
Qed.

Lemma suffix_sanitized (s pat : list Z) :
  Forall extension_char pat ->
  suffix pat (map to_lower (map sanitize_char s)) <-> suffix pat (map to_lower s).
Proof.
  intros Hpat. rewrite map_map. split.
  - apply suffix_transfer; [exact Hpat|].
    intros c t Ht. now apply to_lower_sanitize.
  - apply (suffix_transfer to_lower (fun c => to_lower (sanitize_char c)));
      [exact Hpat|].
    intros c t Ht. now apply to_lower_sanitize.
Qed.

Lemma is_font_file_sanitized file :
  is_font_file (filename file) = is_font_file (File.originalname file).
Proof.
  rewrite filename_map. unfold is_font_file. cbn [existsb].
  change (lit "ttf") with [116; 116; 102].
  change (lit "otf") with [111; 116; 102].
  change (lit "woff") with [119; 111; 102; 102].
  change (lit "woff2") with [119; 111; 102; 102; 50].
  assert (H : forall pat s, Forall extension_char pat ->
            bool_decide (suffix pat (map to_lower (map sanitize_char s)))
            = bool_decide (suffix pat (map to_lower s))).
  { intros pat s Hp. now apply bool_decide_ext, suffix_sanitized. }
  rewrite !H; [reflexivity| | | |];
    repeat (apply Forall_cons; split; [unfold extension_char; lia|]);
    apply Forall_nil_2.
Qed.

End ExtensionFacts.

(** X23. A stored file name has the length of the original name and is
    made of letters, digits, underscores, points and U+4E00..U+9FA5 only,
    so it holds no slash or backslash; a name that is safe already is
    kept, and sanitizing twice is the same as once. *)
Theorem sanitized_name_is_safe (file : Server.File.t) :
  length (Server.filename file) = length (Server.File.originalname file)
  /\ Forall safe_char (Server.filename file)
  /\ (0x2F ∉ Server.filename file)
  /\ (0x5C ∉ Server.filename file)
  /\ Server.filename
       (Server.File.mk (Server.filename file) (Server.File.content file))
     = Server.filename file
  /\ (Forall safe_char (Server.File.originalname file) ->
      Server.filename file = Server.File.originalname file).
Proof.
  assert (Hsafe : Forall safe_char (Server.filename file)).
  { rewrite filename_map. apply Forall_forall. intros c Hc.
    apply list_elem_of_fmap in Hc as (c0 & -> & _). apply sanitize_char_safe. }
  assert (Hid : forall s, Forall safe_char s -> map sanitize_char s = s).
  { induction 1 as [|c r Hc _ IH]; [reflexivity|]. cbn [map].
    now rewrite sanitize_char_id, IH. }
  split; [rewrite filename_map; apply length_map|].
  split; [exact Hsafe|].
  rewrite Forall_forall in Hsafe.
  split; [intros H; apply Hsafe in H; unfold safe_char in H; lia|].
  split; [intros H; apply Hsafe in H; unfold safe_char in H; lia|].
  split.
  - rewrite (filename_map (Server.File.mk _ _)). cbn [Server.File.originalname].
    apply Hid. now apply Forall_forall.
  - intros H. rewrite filename_map. now apply Hid.
Qed.

Lemma sanitized_name_is_safe_witness :
  Server.filename underscored_font = Server.File.originalname underscored_font.
Proof.
  apply (sanitized_name_is_safe underscored_font).
  change (Server.File.originalname underscored_font)
    with [109; 121; 95; 102; 111; 110; 116; 46; 116; 116; 102].
  repeat (apply Forall_cons; split; [unfold safe_char; lia|]).
  apply Forall_nil_2.
Defined.

(** X24. Sanitizing a name neither gives it one of the font extensions
    nor takes one away. *)
Theorem sanitizing_keeps_extension (file : Server.File.t) :
  Server.is_font_file (Server.filename file)
  = Server.is_font_file (Server.File.originalname file).
Proof. apply is_font_file_sanitized. Qed.

Section FontStoreFacts.
Import JS Server Fonts.

Lemma fontOf_inj f g : fontOf f = fontOf g -> f = g.
Proof. intros H. now apply (f_equal CustomFont.fileName) in H. Qed.

Lemma before_dot_no_dot f : 0x2E ∉ before_dot f.
Proof.
  induction f as [|c r IH]; cbn; [apply not_elem_of_nil|].
  destruct (c =? 46) eqn:E; [apply not_elem_of_nil|].
  apply Z.eqb_neq in E. intros H. apply elem_of_cons in H as [H | H];
    [congruence | contradiction].
Qed.

(** The fonts the listing answers with. *)
Lemma get_fonts_spec (dir : gmap (list Z) (list Z)) :
  exists fonts,
    get_fonts dir = mkResponse 200 (ListBody fonts)
    /\ NoDup fonts
    /\ forall font,
         font ∈ fonts
         <-> exists f, font = fontOf f /\ is_Some (dir !! f)
                       /\ is_font_file f = true.
Proof.
  eexists. split; [reflexivity|]. split.
  - change (map fontOf ?l) with (fontOf <$> l).
    apply NoDup_fmap_2_strong.
    + intros f g _ _. apply fontOf_inj.
    + apply NoDup_filter, NoDup_elements.
  - intros font. change (map fontOf ?l) with (fontOf <$> l).
    rewrite list_elem_of_fmap. split.
    + intros (f & -> & Hf). apply list_elem_of_filter in Hf as [Hext Hf].
      apply elem_of_elements, elem_of_dom in Hf. eauto.
    + intros (f & -> & Hf & Hext). exists f. split; [reflexivity|].
      apply list_elem_of_filter. split; [exact Hext|].
      now apply elem_of_elements, elem_of_dom.
Qed.

End FontStoreFacts.

(** X25. The listing answers with exactly the stored files that end in
    one of the font extensions, each once, under the name before its
    first point and the url [/api/fonts/] followed by its file name. *)
Theorem listing_shows_stored_fonts (dir : gmap (list Z) (list Z)) :
  exists fonts,
    Server.get_fonts dir = Server.mkResponse 200 (Server.ListBody fonts)
    /\ NoDup fonts
    /\ (forall font,
          font ∈ fonts
          <-> exists f, font = Server.fontOf f /\ is_Some (dir !! f)
                        /\ Server.is_font_file f = true)
    /\ forall font, font ∈ fonts ->
         Server.CustomFont.url font
           = JS.lit "/api/fonts/" ++ Server.CustomFont.fileName font
         /\ (0x2E ∉ Server.CustomFont.name font).
Proof.
  destruct (get_fonts_spec dir) as (fonts & Hg & Hnd & Hin).
  exists fonts. split; [exact Hg|]. split; [exact Hnd|]. split; [exact Hin|].
  intros font Hf. apply Hin in Hf as (f & -> & _ & _).
  split; [reflexivity | apply before_dot_no_dot].
Qed.

Lemma listing_shows_stored_fonts_witness :
  exists fonts,
    Server.get_fonts (fst (Server.post_fonts (Some song_ttf) ∅))
      = Server.mkResponse 200 (Server.ListBody fonts)
    /\ Server.fontOf (JS.lit "Song.ttf") ∈ fonts
    /\ (0x2E ∉ Server.CustomFont.name (Server.fontOf (JS.lit "Song.ttf"))).
Proof.
  destruct (listing_shows_stored_fonts
              (fst (Server.post_fonts (Some song_ttf) ∅)))
    as (fonts & Hg & _ & Hin & Hu).
  assert (Hf : Server.fontOf (JS.lit "Song.ttf") ∈ fonts).
  { apply Hin. exists (JS.lit "Song.ttf"). split; [reflexivity|].
    split; [|reflexivity].
    rewrite (proj1 (post_fonts_stores song_ttf ∅)). eauto. }
  exists fonts. split; [exact Hg|]. split; [exact Hf|]. now apply Hu.
Defined.

(** X26. After an upload the listing shows the uploaded file exactly
    when its original name ends in one of the font extensions. *)
Theorem upload_then_list
    (file : Server.File.t) (dir : gmap (list Z) (list Z)) :
  exists fonts,
    Server.get_fonts (fst (Server.post_fonts (Some file) dir))
      = Server.mkResponse 200 (Server.ListBody fonts)
    /\ (Server.fontOf (Server.filename file) ∈ fonts
        <-> Server.is_font_file (Server.File.originalname file) = true).
Proof.
  destruct (get_fonts_spec (fst (Server.post_fonts (Some file) dir)))
    as (fonts & Hg & _ & Hin).
  exists fonts. split; [exact Hg|]. rewrite Hin.
  rewrite <- is_font_file_sanitized. split.
  - intros (f & Hf & _ & Hext). apply fontOf_inj in Hf. now subst f.
  - intros Hext. exists (Server.filename file).
    split; [reflexivity|]. split; [|exact Hext].
    rewrite (proj1 (post_fonts_stores file dir)). eauto.
Qed.

Lemma upload_then_list_witness :
  exists fonts,
    Server.get_fonts (fst (Server.post_fonts (Some song_ttf) ∅))
      = Server.mkResponse 200 (Server.ListBody fonts)
    /\ Server.fontOf (Server.filename song_ttf) ∈ fonts.
Proof.
  destruct (upload_then_list song_ttf ∅) as (fonts & Hg & Hin).
  exists fonts. split; [exact Hg|]. apply Hin. reflexivity.
Defined.

(** X27. Two uploads whose names are the same after sanitizing share one
    stored file: the second replaces the first, whose content is gone. *)
Theorem upload_overwrites_same_name
    (f1 f2 : Server.File.t) (dir : gmap (list Z) (list Z)) :
  Server.filename f1 = Server.filename f2 ->
  let d1 := fst (Server.post_fonts (Some f1) dir) in
  let d2 := fst (Server.post_fonts (Some f2) d1) in
  d2 !! Server.filename f1 = Some (Server.File.content f2)
  /\ d2 = fst (Server.post_fonts (Some f2) dir)
  /\ dom d2 = dom d1.
Proof.
  intros Hn. cbv zeta. unfold Server.post_fonts, Server.upload_single.
  cbn [fst]. rewrite Hn.
  split; [apply lookup_insert_eq|]. split; [apply insert_insert_eq|].
  now rewrite insert_insert_eq, !dom_insert_L.
Qed.

Lemma upload_overwrites_same_name_witness :
  fst (Server.post_fonts (Some underscored_font)
         (fst (Server.post_fonts (Some spaced_font) ∅)))
    !! JS.lit "my_font.ttf"
  = Some [3].
Proof.
  apply (upload_overwrites_same_name spaced_font underscored_font ∅).
  reflexivity.
Defined.

Section DeleteFontFacts.
Import JS Server Fonts.

Lemma split_slash_plain s : 0x2F ∉ s -> split_slash s = [s].
Proof.
  induction s as [|c r IH]; intros Hs; [reflexivity|]. cbn [split_slash].
  replace (c =? 47) with false.
  - rewrite IH; [reflexivity|]. intros H. apply Hs. now apply list_elem_of_further.
  - symmetry. apply Z.eqb_neq. intros ->. apply Hs, list_elem_of_here.
Qed.

Lemma ends_with_slash_plain s : 0x2F ∉ s -> ends_with_slash s = false.
Proof.
  intros Hs. unfold ends_with_slash. destruct (last s) as [c|] eqn:E;
    [|reflexivity].
  apply Z.eqb_neq. intros ->. apply Hs.
  apply last_Some in E as [l' ->]. apply elem_of_app. right.
  apply list_elem_of_here.
Qed.

(** A plain name is removed as the file of that name in the directory. *)
Lemma delete_font_simple (fileName : jsstring) (dir : gmap (list Z) (list Z)) :
  simple_name fileName -> delete_font fileName dir = Kept (delete fileName dir).
Proof.
  intros (Hne & Hdot & Hdots & Hslash & Hnul). unfold delete_font, resolve.
  rewrite (bool_decide_eq_false_2 _ Hnul), (split_slash_plain _ Hslash).
  cbn [fold_left]. unfold normalize_step.
  rewrite (bool_decide_eq_false_2 _ Hne), (bool_decide_eq_false_2 _ Hdot),
    (bool_decide_eq_false_2 _ Hdots).
  cbn [orb fst snd]. rewrite (ends_with_slash_plain _ Hslash).
  destruct (dir !! fileName) eqn:E; [reflexivity|].
  now rewrite delete_id.
Qed.

End DeleteFontFacts.

(** X28. For a plain file name the delete route leaves no file of that
    name, takes it off the listing and leaves every other file; a plain
    name that is not stored changes nothing, and uploading under a free
    plain name and deleting it again gives the directory back. The name
    [.] makes the route remove the fonts directory itself. *)
Theorem delete_font_round_trip
    (file : Server.File.t) (fileName : JS.jsstring)
    (dir : gmap (list Z) (list Z)) :
  simple_name fileName ->
  (exists dir',
      Fonts.delete_font fileName dir = Fonts.Kept dir'
      /\ dir' !! fileName = None
      /\ (forall other, other <> fileName -> dir' !! other = dir !! other)
      /\ (forall fonts,
            Server.get_fonts dir' = Server.mkResponse 200 (Server.ListBody fonts) ->
            Server.fontOf fileName ∉ fonts)
      /\ (dir !! fileName = None -> dir' = dir))
  /\ (simple_name (Server.filename file) ->
      dir !! Server.filename file = None ->
      Fonts.delete_font (Server.filename file)
        (fst (Server.post_fonts (Some file) dir)) = Fonts.Kept dir)
  /\ Fonts.delete_font [0x2E] dir = Fonts.DirectoryRemoved.
Proof.
  intros Hs. split; [|split; [|reflexivity]].
  - exists (delete fileName dir). split; [now apply delete_font_simple|].
    split; [apply lookup_delete_eq|].
    split; [intros other Ho; now apply lookup_delete_ne|]. split.
    + intros fonts Hg Hin.
      destruct (get_fonts_spec (delete fileName dir))
        as (fonts' & Hg' & _ & Hspec).
      rewrite Hg in Hg'. injection Hg' as <-.
      apply Hspec in Hin as (f & Hf & [v Hv] & _).
      apply fontOf_inj in Hf. subst f. rewrite lookup_delete_eq in Hv.
      discriminate.
    + intros Hn. now apply delete_id.
  - intros Hsf Hn. rewrite (delete_font_simple _ _ Hsf).
    unfold Server.post_fonts, Server.upload_single. cbn [fst].
    f_equal. now apply delete_insert_id.
Qed.

Lemma delete_font_round_trip_witness :
  Fonts.delete_font (Server.filename spaced_font)
    (fst (Server.post_fonts (Some spaced_font) ∅))
  = Fonts.Kept ∅.
Proof.
  assert (Hs : simple_name (Server.filename spaced_font)).
  { repeat split; try discriminate;
      apply (bool_decide_unpack _); vm_compute; exact I. }
  apply (proj1 (proj2 (delete_font_round_trip spaced_font
                         (Server.filename spaced_font) ∅ Hs)) Hs).
  apply lookup_empty.
Defined.



(** X30. Two font files whose names agree up to the first point are both
    stored and both listed by the store, but the component's list keeps
    only the one uploaded last. *)
Theorem font_name_collision
    (f1 f2 : Server.File.t) (dir : gmap (list Z) (list Z))
    (prev : list Server.CustomFont.t) :
  Server.filename f1 <> Server.filename f2 ->
  Server.before_dot (Server.filename f1) = Server.before_dot (Server.filename f2) ->
  Server.is_font_file (Server.File.originalname f1) = true ->
  Server.is_font_file (Server.File.originalname f2) = true ->
  (exists fonts,
      Server.get_fonts
        (fst (Server.post_fonts (Some f2)
                (fst (Server.post_fonts (Some f1) dir))))
        = Server.mkResponse 200 (Server.ListBody fonts)
      /\ Server.fontOf (Server.filename f1) ∈ fonts
      /\ Server.fontOf (Server.filename f2) ∈ fonts)
  /\ (Server.fontOf (Server.filename f1)
        ∉ Fonts.addCustomFont (Server.fontOf (Server.filename f2))
            (Fonts.addCustomFont (Server.fontOf (Server.filename f1)) prev))
  /\ (Server.fontOf (Server.filename f2)
        ∈ Fonts.addCustomFont (Server.fontOf (Server.filename f2))
            (Fonts.addCustomFont (Server.fontOf (Server.filename f1)) prev)).
Proof.
  intros Hne Hname H1 H2. split; [|split].
  - destruct (get_fonts_spec
                (fst (Server.post_fonts (Some f2)
                        (fst (Server.post_fonts (Some f1) dir)))))
      as (fonts & Hg & _ & Hin).
    exists fonts. split; [exact Hg|].
    rewrite <- is_font_file_sanitized in H1, H2.
    unfold Server.post_fonts, Server.upload_single in *. cbn [fst] in *.
    split; apply Hin; eexists; (split; [reflexivity|]); (split; [|eassumption]).
    + rewrite lookup_insert_ne by congruence. rewrite lookup_insert_eq. eauto.
    + rewrite lookup_insert_eq. eauto.
  - unfold Fonts.addCustomFont. intros Hin.
    apply elem_of_app in Hin as [Hin | Hin].
    + apply list_elem_of_filter in Hin as [Hn _]. apply Hn. exact Hname.
    + apply list_elem_of_singleton, fontOf_inj in Hin. contradiction.
  - unfold Fonts.addCustomFont. apply elem_of_app. right.
    apply list_elem_of_here.
Qed.

Lemma font_name_collision_witness :
  Server.fontOf (JS.lit "Song.ttf")
    ∉ Fonts.addCustomFont (Server.fontOf (JS.lit "Song.otf"))
        (Fonts.addCustomFont (Server.fontOf (JS.lit "Song.ttf")) []).
Proof.
  apply (font_name_collision song_ttf song_otf ∅ []);
    [discriminate | reflexivity | reflexivity | reflexivity].
Defined.
